(** * Credential CRUD routes ([core/framework/server/routes_credentials.py])

    A shallow embedding of the five aiohttp handlers of the credential
    routes and of the serializer they share.  The handlers are written as
    programs over the calls they make on their collaborators (the
    credential store and the credential setup session); a run of a program
    against a world that answers those calls yields the handler's outcome
    (a response or a propagating exception), the final world state and the
    log of the calls made with their results. *)

From Stdlib Require Import String Ascii List ZArith Bool Lia.
From Stdlib Require Import Floats.SpecFloat.
From ExtLib Require Import Structures.Monad Structures.MonadExc.
Import ListNotations.
Import MonadNotation.
Local Open Scope string_scope.
Local Open Scope monad_scope.

Set Implicit Arguments.

(** ** Python values *)

Module Py.

(** The objects [json.loads] produces, which are also the objects
    [json.dumps] accepts: [None], [bool], [int], [float], [str], [list]
    and [dict] with string keys.  A dict is kept as the list of its items
    in insertion order; its keys are pairwise distinct. *)
#[warnings="-register-all"] Inductive value : Type :=
| Null
| Bool (b : bool)
| Int (n : Z)
| Float (f : spec_float)
| Str (s : string)
| List (l : list value)
| Dict (d : list (string * value)).

(** [bool(v)], the test behind [not v], [if v] and [a or b]. *)
Definition truthy (v : value) : bool :=
  match v with
  | Null => false
  | Bool b => b
  | Int n => negb (n =? 0)%Z
  | Float (S754_zero _) => false
  | Float _ => true
  | Str s => negb (s =? "")
  | List l => match l with [] => false | _ :: _ => true end
  | Dict d => match d with [] => false | _ :: _ => true end
  end.

(** [a or b]: the first operand when it is truthy, else the second. *)
Definition or_ (a b : value) : value := if truthy a then a else b.

(** [isinstance(v, dict)]. *)
Definition isinstance_dict (v : value) : bool :=
  match v with Dict _ => true | _ => false end.

(** [type(v).__name__]. *)
Definition type_name (v : value) : string :=
  match v with
  | Null => "NoneType"
  | Bool _ => "bool"
  | Int _ => "int"
  | Float _ => "float"
  | Str _ => "str"
  | List _ => "list"
  | Dict _ => "dict"
  end.

(** Item lookup in a dict: the value stored under [k], if any. *)
Fixpoint lookup {A : Type} (k : string) (d : list (string * A)) : option A :=
  match d with
  | [] => None
  | (k', v) :: rest => if k' =? k then Some v else lookup k rest
  end.

(** [d.get(k)]: the value under [k], [None] when the key is absent. *)
Definition dict_get (d : list (string * value)) (k : string) : value :=
  match lookup k d with
  | Some v => v
  | None => Null
  end.

(** [list(d.keys())]. *)
Definition dict_keys {A : Type} (d : list (string * A)) : list string :=
  map fst d.

(** Instances of [Exception]: the class name and [str(e)]. *)
Record Exception : Type := mkException {
  exc_class : string;
  exc_str : string
}.

(** Attribute access on an object that lacks the attribute. *)
Definition AttributeError (v : value) (attr : string) : Exception :=
  mkException "AttributeError"
    ("'" ++ type_name v ++ "' object has no attribute '" ++ attr ++ "'").

(** A mapping subscripted with a key it does not hold. *)
Definition KeyError (k : string) : Exception :=
  mkException "KeyError" ("'" ++ k ++ "'").

End Py.
Export Py.

(** ** Requests and responses (aiohttp) *)

(** What a handler reads of a [web.Request]: the dynamic segments of the
    matched route, and what [await request.json()] evaluates to, the parsed
    body or the exception the parser raises on a malformed one.  The
    application is taken to carry its credential store under
    [app["credential_store"]]; that store is the world the calls below are
    answered by. *)
Record Request : Type := mkRequest {
  match_info : list (string * string);
  json : Exception + value
}.

(** A [web.Response] made by [web.json_response]: the status code and the
    data that is serialized as the body. *)
Record Response : Type := mkResponse {
  status : Z;
  body : value
}.

(** [web.json_response(data, status=status)]. *)
Definition json_response (data : value) (status : Z) : Response :=
  mkResponse status data.

(** [web.json_response(data)]: the status defaults to 200. *)
Definition json_response_ok (data : value) : Response :=
  json_response data 200.

(** ** The credential models ([framework.credentials.models],
       [framework.credentials.setup]) *)

(** Modelled from the spec: the class of [cred.credential_type] is not
    among the sources; a credential type is represented by the one thing
    the routes observe of it, the string [str(cred.credential_type)]. *)
Record CredentialType : Type := mkCredentialType {
  CredentialType_str : string
}.

(** Modelled from the spec: of a [datetime] the routes only call
    [isoformat()], so a timestamp is represented by that rendering.  Every
    [datetime] object is truthy. *)
Record datetime : Type := mkDatetime {
  isoformat : string
}.

(** [pydantic.SecretStr(v)] wraps the value it is given. *)
Record SecretStr : Type := mkSecretStr {
  get_secret_value : value
}.

(** Modelled from the spec: [CredentialKey] is declared outside the
    sources; the record has the two keyword arguments the save route
    passes. *)
Record CredentialKey : Type := mkCredentialKey {
  name : string;
  value_ : SecretStr
}.

(** Modelled from the spec: [CredentialObject] is declared outside the
    sources; the record has the attributes the routes read ([id],
    [credential_type], [keys], [created_at], [updated_at]).  [keys] is a
    dict from key name to [CredentialKey], kept in insertion order. *)
Record CredentialObject : Type := mkCredentialObject {
  id : value;
  credential_type : CredentialType;
  keys : list (string * CredentialKey);
  created_at : option datetime;
  updated_at : option datetime
}.

(** Modelled from the spec: the elements of [session.missing] are declared
    outside the sources; the record has the attributes the check-agent
    route reads, each one a value that goes into the JSON response. *)
Record MissingCredential : Type := mkMissingCredential {
  credential_name : value;
  credential_id : value;
  env_var : value;
  description : value;
  help_url : value;
  tools : value;
  node_types : value;
  direct_api_key_supported : value;
  aden_supported : value;
  credential_key : value
}.

(** Modelled from the spec: of a [CredentialSetupSession] the route reads
    the [missing] list. *)
Record CredentialSetupSession : Type := mkCredentialSetupSession {
  missing : list MissingCredential
}.

(** ** Calls on the collaborators *)

(** The calls the handlers make outside this module, indexed by the type
    of what they return: the methods of [CredentialStore], the import of
    [framework.credentials.setup] and the session constructor
    [CredentialSetupSession.from_agent_path].  Any of them may raise. *)
Inductive call : Type -> Type :=
| list_credentials : call (list string)
| get_credential (credential_id : string) (refresh_if_needed : bool) :
    call (option CredentialObject)
| save_credential (cred : CredentialObject) : call unit
| delete_credential (credential_id : string) : call value
| is_available (cred_id : value) : call value
| import_CredentialSetupSession : call unit
| from_agent_path (agent_path : value) (missing_only : bool) :
    call CredentialSetupSession.

(** Handler code: return a value, raise, call a collaborator and go on
    with its result, or run a [try] block with its [except Exception]
    clause and go on with the result of whichever of the two completed. *)
Inductive prog (R : Type) : Type :=
| Ret (r : R)
| Raise (e : Exception)
| Call {X : Type} (c : call X) (k : X -> prog R)
| Try {X : Type} (block : prog X) (except : Exception -> prog X)
    (k : X -> prog R).

Arguments Ret {R} r.
Arguments Raise {R} e.

Fixpoint prog_bind {A B : Type} (p : prog A) (f : A -> prog B) : prog B :=
  match p with
  | Ret a => f a
  | Raise e => Raise e
  | Call c k => Call c (fun x => prog_bind (k x) f)
  | Try b h k => Try b h (fun x => prog_bind (k x) f)
  end.

#[global] Instance Monad_prog : Monad prog :=
  {| ret := @Ret; bind := @prog_bind |}.

#[global] Instance MonadExc_prog : MonadExc Exception prog :=
  {| raise := @Raise; catch := fun _ block except => Try block except Ret |}.

(** [store.method(...)]: the call, continued by returning its result. *)
Definition invoke {X : Type} (c : call X) : prog X := Call c Ret.

(** ** The routes *)

(** [await request.json()]. *)
Definition request_json (request : Request) : prog value :=
  match json request with
  | inr data => ret data
  | inl e => raise e
  end.

(** [request.match_info[k]]. *)
Definition match_info_getitem (request : Request) (k : string) : prog string :=
  match lookup k (match_info request) with
  | Some segment => ret segment
  | None => raise (KeyError k)
  end.

(** [obj.get(k)]: only a dict has the method. *)
Definition get (obj : value) (k : string) : prog value :=
  match obj with
  | Dict d => ret (dict_get d k)
  | _ => raise (AttributeError obj "get")
  end.

(** [obj.items()]: only a dict has the method. *)
Definition items (obj : value) : prog (list (string * value)) :=
  match obj with
  | Dict d => ret d
  | _ => raise (AttributeError obj "items")
  end.

(** [logger.exception(msg)] hands a record to the logging module and
    returns [None]; it neither calls the collaborators nor raises. *)
Definition logger_exception (msg : string) : prog unit := ret tt.

(** [x.isoformat() if x else None]. *)
Definition isoformat_or_None (x : option datetime) : value :=
  match x with
  | Some t => Str (isoformat t)
  | None => Null
  end.

Definition _credential_to_dict (cred : CredentialObject) : value :=
  Dict [ ("credential_id", id cred);
         ("credential_type", Str (CredentialType_str (credential_type cred)));
         ("key_names", List (map Str (dict_keys (keys cred))));
         ("created_at", isoformat_or_None (created_at cred));
         ("updated_at", isoformat_or_None (updated_at cred)) ].

(** The [for cid in cred_ids] loop of [handle_list_credentials];
    [credentials] is the list appended to.  An object returned by the
    store is truthy, so [if cred] tests for [None]. *)
Fixpoint list_credentials_loop (cred_ids : list string)
    (credentials : list value) : prog (list value) :=
  match cred_ids with
  | [] => ret credentials
  | cid :: rest =>
      cred <- invoke (get_credential cid false) ;;
      match cred with
      | Some c =>
          list_credentials_loop rest (credentials ++ [_credential_to_dict c])
      | None => list_credentials_loop rest credentials
      end
  end.

(** GET /api/credentials *)
Definition handle_list_credentials (request : Request) : prog Response :=
  cred_ids <- invoke list_credentials ;;
  credentials <- list_credentials_loop cred_ids [] ;;
  ret (json_response_ok (Dict [("credentials", List credentials)])).

(** GET /api/credentials/{credential_id} *)
Definition handle_get_credential (request : Request) : prog Response :=
  credential_id <- match_info_getitem request "credential_id" ;;
  cred <- invoke (get_credential credential_id false) ;;
  match cred with
  | None =>
      ret (json_response
             (Dict [("error",
                     Str ("Credential '" ++ credential_id ++ "' not found"))])
             404)
  | Some c => ret (json_response_ok (_credential_to_dict c))
  end.

(** DELETE /api/credentials/{credential_id} *)
Definition handle_delete_credential (request : Request) : prog Response :=
  credential_id <- match_info_getitem request "credential_id" ;;
  deleted <- invoke (delete_credential credential_id) ;;
  if negb (truthy deleted) then
    ret (json_response
           (Dict [("error",
                   Str ("Credential '" ++ credential_id ++ "' not found"))])
           404)
  else ret (json_response_ok (Dict [("deleted", Bool true)])).

(** The dict appended to [required] for one element of [session.missing]. *)
Definition required_entry (mc : MissingCredential) (cred_id available : value)
    : value :=
  Dict [ ("credential_name", credential_name mc);
         ("credential_id", cred_id);
         ("env_var", env_var mc);
         ("description", description mc);
         ("help_url", help_url mc);
         ("tools", tools mc);
         ("node_types", node_types mc);
         ("available", available);
         ("direct_api_key_supported", direct_api_key_supported mc);
         ("aden_supported", aden_supported mc);
         ("credential_key", credential_key mc) ].

(** The [for mc in session.missing] loop of [handle_check_agent]. *)
Fixpoint required_loop (session_missing : list MissingCredential)
    (required : list value) : prog (list value) :=
  match session_missing with
  | [] => ret required
  | mc :: rest =>
      let cred_id := or_ (credential_id mc) (credential_name mc) in
      available <- invoke (is_available cred_id) ;;
      required_loop rest (required ++ [required_entry mc cred_id available])
  end.

(** The [try] block of [handle_check_agent]. *)
Definition check_agent_block (agent_path : value) : prog Response :=
  invoke import_CredentialSetupSession ;;
  session <- invoke (from_agent_path agent_path false) ;;
  required <- required_loop (missing session) [] ;;
  ret (json_response_ok (Dict [("required", List required)])).

(** The [except Exception as e] clause of [handle_check_agent]. *)
Definition check_agent_except (e : Exception) : prog Response :=
  logger_exception ("Error checking agent credentials: " ++ exc_str e) ;;
  ret (json_response (Dict [("error", Str (exc_str e))]) 500).

(** POST /api/credentials/check-agent *)
Definition handle_check_agent (request : Request) : prog Response :=
  body <- request_json request ;;
  agent_path <- get body "agent_path" ;;
  if negb (truthy agent_path) then
    ret (json_response (Dict [("error", Str "agent_path is required")]) 400)
  else catch (check_agent_block agent_path) check_agent_except.

Inductive http_method : Type := GET | POST | DELETE | HEAD.

(** [app.router.add_get(path, handler)]: with aiohttp's default
    [allow_head=True] the path gets a HEAD route and then the GET route,
    both to [handler]. *)
Definition add_get (path : string) (handler : Request -> prog Response)
    : list (http_method * string * (Request -> prog Response)) :=
  [(HEAD, path, handler); (GET, path, handler)].

(** [app.router.add_post(path, handler)]. *)
Definition add_post (path : string) (handler : Request -> prog Response)
    : list (http_method * string * (Request -> prog Response)) :=
  [(POST, path, handler)].

(** [app.router.add_delete(path, handler)]. *)
Definition add_delete (path : string) (handler : Request -> prog Response)
    : list (http_method * string * (Request -> prog Response)) :=
  [(DELETE, path, handler)].

Section Routes.

(** The values the [CredentialObject] class gives to the fields the save
    route leaves out; the class is declared outside the sources. *)
Variable default_credential_type : CredentialType.
Variables default_created_at default_updated_at : option datetime.

(** [CredentialObject(id=id, keys=keys)]. *)
Definition CredentialObject_init (id : value)
    (keys : list (string * CredentialKey)) : CredentialObject :=
  {| id := id;
     credential_type := default_credential_type;
     keys := keys;
     created_at := default_created_at;
     updated_at := default_updated_at |}.

(** [{k: CredentialKey(name=k, value=SecretStr(v)) for k, v in items}]. *)
Definition credential_keys (items : list (string * value))
    : list (string * CredentialKey) :=
  map (fun '(k, v) => (k, {| name := k; value_ := mkSecretStr v |})) items.

(** POST /api/credentials *)
Definition handle_save_credential (request : Request) : prog Response :=
  body <- request_json request ;;
  credential_id <- get body "credential_id" ;;
  keys <- get body "keys" ;;
  if negb (truthy credential_id) || negb (truthy keys)
     || negb (isinstance_dict keys) then
    ret (json_response
           (Dict [("error", Str "credential_id and keys are required")]) 400)
  else
    keys_items <- items keys ;;
    let cred := CredentialObject_init credential_id (credential_keys keys_items) in
    invoke (save_credential cred) ;;
    ret (json_response (Dict [("saved", credential_id)]) 201).

(** The routes [register_routes] adds to the application's router, in the
    order it adds them. *)
Definition register_routes
    : list (http_method * string * (Request -> prog Response)) :=
  (add_post "/api/credentials/check-agent" handle_check_agent
   ++ add_get "/api/credentials" handle_list_credentials
   ++ add_post "/api/credentials" handle_save_credential
   ++ add_get "/api/credentials/{credential_id}" handle_get_credential
   ++ add_delete "/api/credentials/{credential_id}" handle_delete_credential)%list.

End Routes.

(** ** Running a handler *)

(** A world answers every call from its current state with a result or an
    exception, and moves to a new state.  The state stands for everything
    behind the collaborators: the stored credentials, the agent definitions
    on disk, the clock. *)
Record World : Type := mkWorld {
  state : Type;
  answer : forall X : Type, call X -> state -> (Exception + X) * state
}.

(** One entry of the call log: the call and what came back. *)
Inductive invocation : Type :=
| Invoked {X : Type} (c : call X) (result : Exception + X).

(** The call returned (it did not raise). *)
Definition returned (i : invocation) : Prop :=
  match i with
  | Invoked _ (inr _) => True
  | Invoked _ (inl _) => False
  end.

(** The outcome of a run: the value returned or the exception that
    propagates to the caller, the final state, and the calls made. *)
Definition outcome (w : World) (R : Type) : Type :=
  ((Exception + R) * state w * list invocation)%type.

Fixpoint run (w : World) {R : Type} (p : prog R) (s : state w) : outcome w R :=
  match p with
  | Ret r => (inr r, s, [])
  | Raise e => (inl e, s, [])
  | Call c k =>
      let '(a, s1) := answer w c s in
      match a with
      | inl e => (inl e, s1, [Invoked c a])
      | inr x =>
          let '(o, s2, t) := run w (k x) s1 in
          (o, s2, Invoked c a :: t)
      end
  | Try block except k =>
      let '(o1, s1, t1) := run w block s in
      match o1 with
      | inr x =>
          let '(o, s2, t2) := run w (k x) s1 in
          (o, s2, (t1 ++ t2)%list)
      | inl e =>
          let '(o2, s2, t2) := run w (except e) s1 in
          match o2 with
          | inl e' => (inl e', s2, (t1 ++ t2)%list)
          | inr x =>
              let '(o, s3, t3) := run w (k x) s2 in
              (o, s3, (t1 ++ t2 ++ t3)%list)
          end
      end
  end.

Definition result_of {w : World} {R : Type} (o : outcome w R) : Exception + R :=
  fst (fst o).

Definition final_state {w : World} {R : Type} (o : outcome w R) : state w :=
  snd (fst o).

Definition calls_of {w : World} {R : Type} (o : outcome w R) : list invocation :=
  snd o.

(** ** A store in memory *)

(** A world to run the handlers in: the state is the list of the stored
    credentials, one per id, and agent definitions are a fixed table from
    agent path to the requirements of that agent. *)
Module MemoryStore.

Definition has_id (cid : value) (cred : CredentialObject) : bool :=
  match cid, id cred with
  | Str a, Str b => a =? b
  | _, _ => false
  end.

Definition stored_id (cred : CredentialObject) : list string :=
  match id cred with
  | Str s => [s]
  | _ => []
  end.

Definition FileNotFoundError (path : value) : Exception :=
  mkException "FileNotFoundError"
    ("agent not found: " ++ match path with Str p => p | _ => "?" end).

Definition answer_in_memory
    (agents : list (string * list MissingCredential))
    (X : Type) (c : call X) (s : list CredentialObject)
    : (Exception + X) * list CredentialObject :=
  match c in call X return (Exception + X) * list CredentialObject with
  | list_credentials => (inr (flat_map stored_id s), s)
  | get_credential cid _ => (inr (find (has_id (Str cid)) s), s)
  | save_credential cred =>
      (inr tt, (filter (fun c => negb (has_id (id cred) c)) s ++ [cred])%list)
  | delete_credential cid =>
      (inr (Bool (existsb (has_id (Str cid)) s)),
       filter (fun c => negb (has_id (Str cid) c)) s)
  | is_available cid => (inr (Bool (existsb (has_id cid) s)), s)
  | import_CredentialSetupSession => (inr tt, s)
  | from_agent_path path _ =>
      match path with
      | Str p =>
          match lookup p agents with
          | Some l => (inr (mkCredentialSetupSession l), s)
          | None => (inl (FileNotFoundError path), s)
          end
      | _ => (inl (FileNotFoundError path), s)
      end
  end.

Definition world (agents : list (string * list MissingCredential)) : World :=
  {| state := list CredentialObject; answer := answer_in_memory agents |}.

(** Sample data. *)

Definition api_key : CredentialType := mkCredentialType "api_key".

Definition t0 : option datetime := Some (mkDatetime "2025-01-01T00:00:00").

Definition github (token : string) : CredentialObject :=
  {| id := Str "github";
     credential_type := api_key;
     keys := [("token", {| name := "token"; value_ := mkSecretStr (Str token) |})];
     created_at := t0;
     updated_at := None |}.

Definition needs (cname cid : value) : MissingCredential :=
  {| credential_name := cname; credential_id := cid;
     env_var := Null; description := Str ""; help_url := Str "";
     tools := List []; node_types := List [];
     direct_api_key_supported := Bool true; aden_supported := Bool false;
     credential_key := Str "api_key" |}.

Definition agents : list (string * list MissingCredential) :=
  [("exports/demo", [needs (Str "github") (Str ""); needs (Str "slack") (Str "slack_bot")])].

Definition demo : World := world agents.

Definition save_github : Request :=
  mkRequest []
    (inr (Dict [("credential_id", Str "github");
                ("keys", Dict [("token", Str "s3cr3t")])])).

Definition save_without_keys : Request :=
  mkRequest [] (inr (Dict [("credential_id", Str "github")])).

Definition JSONDecodeError : Exception :=
  mkException "JSONDecodeError" "Expecting value: line 1 column 1 (char 0)".



(** A GET of the collection; it has no body. *)
Definition listing : Request := mkRequest [] (inl JSONDecodeError).

(** A GET or DELETE of one credential; it has no body. *)
Definition item (cid : string) : Request :=
  mkRequest [("credential_id", cid)] (inl JSONDecodeError).

Definition check (path : string) : Request :=
  mkRequest [] (inr (Dict [("agent_path", Str path)])).

(** A credential with two keys, [first] stored before [second]; the
    secret of a key depends on its name alone. *)
Definition login (first second : string) : CredentialObject :=
  {| id := Str "login";
     credential_type := api_key;
     keys :=
       [(first,
         {| name := first; value_ := mkSecretStr (Str ("secret-" ++ first)) |});
        (second,
         {| name := second;
            value_ := mkSecretStr (Str ("secret-" ++ second)) |})];
     created_at := t0;
     updated_at := None |}.

(** A store whose backend is down: every call raises. *)
Definition ConnectionError : Exception :=
  mkException "ConnectionError" "credential backend unreachable".

Definition down : World :=
  {| state := unit;
     answer := fun (X : Type) (_ : call X) (s : unit) =>
                 (inl ConnectionError, s) |}.

End MemoryStore.

(** ** Vocabulary of the statements *)

(** [body[k]] is absent or falsy. *)
Definition absent_or_falsy (d : list (string * value)) (k : string) : Prop :=
  match lookup k d with
  | None => True
  | Some v => truthy v = false
  end.

(** [body[k]] is absent, falsy, or not a dict. *)
Definition absent_falsy_or_not_dict (d : list (string * value)) (k : string)
    : Prop :=
  absent_or_falsy d k \/ forall items, lookup k d <> Some (Dict items).

(** The body of a save request lacks what the route requires. *)
Definition save_rejected (d : list (string * value)) : Prop :=
  absent_or_falsy d "credential_id" \/ absent_falsy_or_not_dict d "keys".

(** The field [k] of a JSON object. *)
Definition field (v : value) (k : string) : option value :=
  match v with
  | Dict d => lookup k d
  | _ => None
  end.

(** The credentials among the results of [get_credential], [None]s
    dropped. *)
Definition present (results : list (option CredentialObject))
    : list CredentialObject :=
  flat_map (fun r => match r with Some c => [c] | None => [] end) results.

(** The log of reading each id of [ids] in turn without refresh,
    [results] being what came back. *)
Definition reads (ids : list string) (results : list (option CredentialObject))
    : list invocation :=
  map (fun '(cid, r) => Invoked (get_credential cid false) (inr r))
    (combine ids results).

(** The id the check-agent route resolves for a requirement. *)
Definition resolved_id (mc : MissingCredential) : value :=
  if truthy (credential_id mc) then credential_id mc else credential_name mc.

(** The log of asking the store for each requirement's resolved id in
    turn, [availables] being what came back. *)
Definition availability_checks (session_missing : list MissingCredential)
    (availables : list value) : list invocation :=
  map (fun '(mc, a) => Invoked (is_available (resolved_id mc)) (inr a))
    (combine session_missing availables).

(** The exception a logged call raised, if it raised. *)
Definition raised (i : invocation) : option Exception :=
  match i with
  | Invoked _ (inl e) => Some e
  | Invoked _ (inr _) => None
  end.

(** The entries of [required] for the requirements [session_missing],
    [availables] being what the store said of each resolved id. *)
Definition required_entries (session_missing : list MissingCredential)
    (availables : list value) : list value :=
  map (fun '(mc, a) => required_entry mc (resolved_id mc) a)
    (combine session_missing availables).



(** A call that reads credentials and asks for no refresh. *)
Definition read_without_refresh (i : invocation) : Prop :=
  match i with
  | Invoked c _ =>
      match c with
      | list_credentials => True
      | get_credential _ refresh_if_needed => refresh_if_needed = false
      | _ => False
      end
  end.

(** Two credentials with the same id, type, key names and timestamps;
    the secret values of their keys are left free. *)
Definition same_metadata (c1 c2 : CredentialObject) : Prop :=
  id c1 = id c2 /\
  credential_type c1 = credential_type c2 /\
  dict_keys (keys c1) = dict_keys (keys c2) /\
  created_at c1 = created_at c2 /\
  updated_at c1 = updated_at c2.

(** Two credentials with the same id, type, set of key names and
    timestamps. *)
Definition same_metadata_key_sets (c1 c2 : CredentialObject) : Prop :=
  id c1 = id c2 /\
  credential_type c1 = credential_type c2 /\
  (forall k, In k (dict_keys (keys c1)) <-> In k (dict_keys (keys c2))) /\
  created_at c1 = created_at c2 /\
  updated_at c1 = updated_at c2.

(** Two answers of [get_credential] that agree up to secret values. *)
Definition same_metadata_result
    (a1 a2 : Exception + option CredentialObject) : Prop :=
  match a1, a2 with
  | inl e1, inl e2 => e1 = e2
  | inr None, inr None => True
  | inr (Some c1), inr (Some c2) => same_metadata c1 c2
  | _, _ => False
  end.

(** Two stores that agree on credential ids, credential types, key names
    and timestamps: from states related by [R], listing returns the same
    ids, reading an id without refresh returns credentials with the same
    metadata, and the states that follow are related again. *)
Record stores_agree (w1 w2 : World) (R : state w1 -> state w2 -> Prop)
    : Prop := {
  agree_list : forall s1 s2, R s1 s2 ->
    fst (answer w1 list_credentials s1) = fst (answer w2 list_credentials s2) /\
    R (snd (answer w1 list_credentials s1)) (snd (answer w2 list_credentials s2));
  agree_get : forall cid s1 s2, R s1 s2 ->
    same_metadata_result
      (fst (answer w1 (get_credential cid false) s1))
      (fst (answer w2 (get_credential cid false) s2)) /\
    R (snd (answer w1 (get_credential cid false) s1))
      (snd (answer w2 (get_credential cid false) s2))
}.

(** ** Further vocabulary: call footprints and route matching *)

(** Handler code without a [try] block: whatever a call raises leaves the
    handler. *)
Fixpoint try_free {R : Type} (p : prog R) : Prop :=
  match p with
  | Ret _ => True
  | Raise _ => True
  | Call _ k => forall x, try_free (k x)
  | Try _ _ _ => False
  end.

(** A call to [store.save_credential]. *)
Definition save_call (i : invocation) : Prop :=
  match i with
  | Invoked c _ =>
      match c with
      | save_credential _ => True
      | _ => False
      end
  end.

(** A call to [store.delete_credential]. *)
Definition delete_call (i : invocation) : Prop :=
  match i with
  | Invoked c _ =>
      match c with
      | delete_credential _ => True
      | _ => False
      end
  end.

(** A call check-agent makes: the import of the setup module, the
    construction of the session with [missing_only=False], or
    [store.is_available]. *)
Definition check_agent_call (i : invocation) : Prop :=
  match i with
  | Invoked c _ =>
      match c with
      | import_CredentialSetupSession => True
      | from_agent_path _ missing_only => missing_only = false
      | is_available _ => True
      | _ => False
      end
  end.

(** The keys of a metadata serialization, in order. *)
Definition metadata_keys : list string :=
  ["credential_id"; "credential_type"; "key_names"; "created_at";
   "updated_at"].

(** The keys of an entry of check-agent's [required] list, in order. *)
Definition required_keys : list string :=
  ["credential_name"; "credential_id"; "env_var"; "description"; "help_url";
   "tools"; "node_types"; "available"; "direct_api_key_supported";
   "aden_supported"; "credential_key"].

(** A response whose body tells an error from a result: the body is a
    JSON object; from status 400 up it is exactly [{"error": message}]
    with a string message; below 400 it has no [error] field. *)
Definition error_marked (resp : Response) : Prop :=
  (exists d, body resp = Dict d) /\
  ((400 <= status resp)%Z -> exists msg, body resp = Dict [("error", Str msg)]) /\
  ((status resp < 400)%Z -> field (body resp) "error" = None).

(** [s.split("/")], [segment] being the characters read since the last
    slash. *)
Fixpoint split_slash (s : string) (segment : string) : list string :=
  match s with
  | EmptyString => [segment]
  | String c rest =>
      if Ascii.eqb c "/" then segment :: split_slash rest ""
      else split_slash rest (segment ++ String c "")
  end.

(** The text before a closing brace that ends [s]. *)
Fixpoint before_closing_brace (s : string) : option string :=
  match s with
  | EmptyString => None
  | String c EmptyString => if Ascii.eqb c "}" then Some "" else None
  | String c rest => option_map (String c) (before_closing_brace rest)
  end.

(** The name of a pattern segment of the form [{name}]. *)
Definition variable_name (segment : string) : option string :=
  match segment with
  | String c rest => if Ascii.eqb c "{" then before_closing_brace rest else None
  | EmptyString => None
  end.

(** No brace occurs in [s]. *)
Fixpoint no_brace (s : string) : bool :=
  match s with
  | EmptyString => true
  | String c rest =>
      negb (Ascii.eqb c "{") && negb (Ascii.eqb c "}") && no_brace rest
  end.

(** No slash occurs in [s]. *)
Fixpoint no_slash (s : string) : bool :=
  match s with
  | EmptyString => true
  | String c rest => negb (Ascii.eqb c "/") && no_slash rest
  end.

(** A path segment a [{name}] variable matches: one character or more,
    none of them a slash or a brace. *)
Definition variable_segment (segment : string) : Prop :=
  segment <> "" /\ no_slash segment = true /\ no_brace segment = true.

Section Router.

(** The decoding aiohttp applies to a matched segment before it puts it
    in [match_info]. *)
Variable unquote : string -> string.

(** aiohttp's match of a path against a route pattern, segment by
    segment, for patterns whose variables are whole segments: a literal
    segment matches itself, [{name}] matches any non-empty segment
    without braces and binds [name] to it. *)
Fixpoint match_segments (pattern path : list string)
    : option (list (string * string)) :=
  match pattern, path with
  | [], [] => Some []
  | p :: pattern', segment :: path' =>
      match variable_name p with
      | Some name =>
          if negb (segment =? "") && no_brace segment then
            option_map (cons (name, unquote segment))
              (match_segments pattern' path')
          else None
      | None =>
          if p =? segment then match_segments pattern' path' else None
      end
  | _, _ => None
  end.

Definition match_route (pattern path : string)
    : option (list (string * string)) :=
  match_segments (split_slash pattern "") (split_slash path "").

End Router.

(** What a GET of [path] contributes to a listing when the router hands
    it to [handler] on the route [/api/credentials/{credential_id}]: the
    body of the response when that is a 200; nothing when the handler
    answers otherwise or raises, or when the route does not match [path]
    and the router answers 404 itself. *)
Definition routed_item_metadata (unquote : string -> string)
    (handler : Request -> prog Response) (w : World) (s : state w)
    (body_json : Exception + value) (path : string) : list value :=
  match match_route unquote "/api/credentials/{credential_id}" path with
  | Some mi =>
      match result_of (run w (handler (mkRequest mi body_json)) s) with
      | inr resp => if (status resp =? 200)%Z then [body resp] else []
      | inl _ => []
      end
  | None => []
  end.

(** ** Facts about runs *)

(** A log whose calls all returned does not start with a call that
    raised. *)
Ltac first_call_raised H :=
  let Hr := fresh "Hr" in inversion H as [| ? ? Hr _]; destruct Hr.

Lemma run_bind (w : World) (A B : Type) (p : prog A) (f : A -> prog B)
    (s : state w) :
  run w (prog_bind p f) s =
  let '(o1, s1, t1) := run w p s in
  match o1 with
  | inl e => (inl e, s1, t1)
  | inr a => let '(o, s2, t2) := run w (f a) s1 in (o, s2, (t1 ++ t2)%list)
  end.
Proof.
  revert B f s.
  induction p as [A r | A e | A X c k IH | A X block IHb except IHe k IH];
    intros B f s; simpl.
  - destruct (run w (f r) s) as [[o s2] t2]. reflexivity.
  - reflexivity.
  - destruct (answer w c s) as [[e | x] s1]; [reflexivity |].
    rewrite IH.
    destruct (run w (k x) s1) as [[[e | a] s2] t2]; [reflexivity |].
    destruct (run w (f a) s2) as [[o s3] t3]. reflexivity.
  - destruct (run w block s) as [[[e | x] s1] t1].
    + destruct (run w (except e) s1) as [[[e' | x] s2] t2].
      * reflexivity.
      * rewrite IH.
        destruct (run w (k x) s2) as [[[e' | a] s3] t3].
        -- rewrite <- ?app_assoc; reflexivity.
        -- destruct (run w (f a) s3) as [[o s4] t4].
           rewrite <- ?app_assoc; reflexivity.
    + rewrite IH.
      destruct (run w (k x) s1) as [[[e' | a] s3] t3].
      * reflexivity.
      * destruct (run w (f a) s3) as [[o s4] t4].
        rewrite <- ?app_assoc; reflexivity.
Qed.

(** ** POST /api/credentials *)

Lemma save_test_rejected (d : list (string * value)) :
  negb (truthy (dict_get d "credential_id"))
  || negb (truthy (dict_get d "keys"))
  || negb (isinstance_dict (dict_get d "keys")) = true <->
  save_rejected d.
Proof.
  unfold save_rejected, absent_falsy_or_not_dict, absent_or_falsy, dict_get.
  destruct (lookup "credential_id" d) as [cid |]; simpl.
  2: { split; auto. }
  destruct (truthy cid); simpl.
  2: { split; auto. }
  destruct (lookup "keys" d) as [ks |]; simpl.
  2: { split; auto. }
  destruct (truthy ks) eqn:Hks; simpl.
  2: { split; auto. }
  destruct ks; simpl; split; intros H; auto; try (right; right; congruence).
  destruct H as [H | [H | H]]; try discriminate.
  now contradiction (H d0).
Qed.

Lemma credential_keys_names (items : list (string * value)) :
  dict_keys (credential_keys items) = dict_keys items.
Proof.
  unfold dict_keys, credential_keys. rewrite map_map.
  apply map_ext. now intros [k v].
Qed.

Lemma credential_keys_lookup (items : list (string * value)) (k : string) :
  lookup k (credential_keys items) =
  match lookup k items with
  | Some v => Some {| name := k; value_ := mkSecretStr v |}
  | None => None
  end.
Proof.
  induction items as [| [k' v] items IH]; simpl; [reflexivity |].
  destruct (String.eqb_spec k' k) as [-> | _]; [reflexivity | exact IH].
Qed.

Section SaveRoute.

Variable w : World.
Variable default_credential_type : CredentialType.
Variables default_created_at default_updated_at : option datetime.

(** C1.  On a body that is a dict, POST /api/credentials answers 400 with
    the fixed error message, calling nothing, when [credential_id] is
    absent or falsy or [keys] is absent, falsy or not a dict.  Otherwise
    it makes exactly one call, [store.save_credential] on a credential
    whose id is the body's [credential_id] and whose keys are the body's
    key names in order, each bound to the [CredentialKey] of that name
    holding the given value as a secret; when that call returns, the
    response is 201 with [{"saved": credential_id}]; when it raises, the
    exception propagates. *)
Theorem handle_save_credential_spec (mi : list (string * string))
    (d : list (string * value)) (s : state w) :
  let o :=
    run w
      (handle_save_credential default_credential_type default_created_at
         default_updated_at (mkRequest mi (inr (Dict d)))) s in
  (save_rejected d ->
   o = (inr (json_response
               (Dict [("error", Str "credential_id and keys are required")])
               400), s, [])) /\
  (~ save_rejected d ->
   exists credential_id items cred,
     lookup "credential_id" d = Some credential_id /\
     lookup "keys" d = Some (Dict items) /\
     id cred = credential_id /\
     dict_keys (keys cred) = dict_keys items /\
     (forall k,
        lookup k (keys cred) =
        match lookup k items with
        | Some v => Some {| name := k; value_ := mkSecretStr v |}
        | None => None
        end) /\
     calls_of o =
       [Invoked (save_credential cred)
          (fst (answer w (save_credential cred) s))] /\
     final_state o = snd (answer w (save_credential cred) s) /\
     result_of o =
       match fst (answer w (save_credential cred) s) with
       | inl e => inl e
       | inr _ => inr (json_response (Dict [("saved", credential_id)]) 201)
       end).
Proof.
  intros o. subst o.
  unfold handle_save_credential, request_json. simpl.
  pose proof (save_test_rejected d) as Htest.
  destruct (negb (truthy (dict_get d "credential_id"))
            || negb (truthy (dict_get d "keys"))
            || negb (isinstance_dict (dict_get d "keys"))) eqn:Hb.
  - split; [reflexivity |].
    intros Hn. contradiction Hn. now apply Htest.
  - split.
    + intros Hr. apply Htest in Hr. discriminate.
    + intros _.
      apply orb_false_elim in Hb. destruct Hb as [Hb Hd].
      apply orb_false_elim in Hb. destruct Hb as [Hc Hk].
      unfold dict_get in *.
      destruct (lookup "credential_id" d) as [cid |]; [| discriminate].
      destruct (lookup "keys" d) as [[| | | | | | items] |]; try discriminate.
      simpl.
      set (cred := CredentialObject_init default_credential_type
                     default_created_at default_updated_at cid
                     (credential_keys items)).
      exists cid, items, cred.
      unfold calls_of, final_state, result_of.
      destruct (answer w (save_credential cred) s) as [[e | []] s1]; simpl;
        repeat split;
        auto using credential_keys_names, credential_keys_lookup.
Qed.

(** C9.  When POST /api/credentials answers 400, the handler has made no
    call at all, so [store.save_credential] was not called, and the world
    is in the state it was in before the request. *)
Theorem save_rejected_leaves_store (request : Request) (s : state w)
    (resp : Response) :
  let o :=
    run w
      (handle_save_credential default_credential_type default_created_at
         default_updated_at request) s in
  result_of o = inr resp ->
  status resp = 400%Z ->
  calls_of o = [] /\
  final_state o = s /\
  (forall cred a, ~ In (Invoked (save_credential cred) a) (calls_of o)).
Proof.
  intros o Hres Hst.
  assert (Hcalls : calls_of o = [] /\ final_state o = s).
  { subst o. revert Hres.
    unfold handle_save_credential, request_json.
    destruct request as [mi [e | body]]; simpl; [discriminate |].
    destruct body; simpl; try discriminate.
    destruct (negb (truthy (dict_get d "credential_id"))
              || negb (truthy (dict_get d "keys"))
              || negb (isinstance_dict (dict_get d "keys"))) eqn:Hb.
    - now intros _.
    - destruct (dict_get d "keys"); simpl; try discriminate.
      destruct (answer w (save_credential _) s) as [[e | []] s1];
        simpl; [discriminate |].
      unfold result_of; simpl. intros [= <-]. discriminate Hst. }
  destruct Hcalls as [Hc Hs].
  repeat split; trivial.
  intros cred a. rewrite Hc. intros [].
Qed.

End SaveRoute.

Lemma handle_save_credential_spec_witness :
  result_of
    (run MemoryStore.demo
       (handle_save_credential MemoryStore.api_key None None
          MemoryStore.save_github) []) =
  inr (json_response (Dict [("saved", Str "github")]) 201) /\
  run MemoryStore.demo
    (handle_save_credential MemoryStore.api_key None None
       MemoryStore.save_without_keys) [] =
  (inr (json_response
          (Dict [("error", Str "credential_id and keys are required")]) 400),
   [], []).
Proof.
  split.
  - destruct (handle_save_credential_spec MemoryStore.demo MemoryStore.api_key
                None None []
                [("credential_id", Str "github");
                 ("keys", Dict [("token", Str "s3cr3t")])] [])
      as [_ Hsaved].
    destruct Hsaved as (cid & items & cred & Hcid & _ & _ & _ & _ & _ & _ & Hres).
    + intros [Hr | [Hr | Hr]]; try discriminate Hr.
      now apply (Hr [("token", Str "s3cr3t")]).
    + injection Hcid as <-. exact Hres.
  - apply (handle_save_credential_spec MemoryStore.demo MemoryStore.api_key
             None None [] [("credential_id", Str "github")] []).
    right. left. exact I.
Defined.

Lemma save_rejected_leaves_store_witness :
  calls_of
    (run MemoryStore.demo
       (handle_save_credential MemoryStore.api_key None None
          MemoryStore.save_without_keys) [MemoryStore.github "t0k3n"]) = [] /\
  final_state
    (run MemoryStore.demo
       (handle_save_credential MemoryStore.api_key None None
          MemoryStore.save_without_keys) [MemoryStore.github "t0k3n"]) =
  [MemoryStore.github "t0k3n"].
Proof.
  destruct (save_rejected_leaves_store MemoryStore.demo MemoryStore.api_key
              None None MemoryStore.save_without_keys
              [MemoryStore.github "t0k3n"]
              (resp := json_response
                 (Dict [("error", Str "credential_id and keys are required")])
                 400) eq_refl eq_refl)
    as (Hcalls & Hstate & _).
  split; assumption.
Defined.

(** ** GET and DELETE /api/credentials/{credential_id} *)

Section ItemRoutes.

Variable w : World.

(** C2.  With the route's [credential_id] segment [cid], GET
    /api/credentials/{credential_id} makes exactly one call,
    [store.get_credential(cid, refresh_if_needed=False)].  When the call
    returns [None] the response is 404 with an error body; when it returns
    a credential the response is 200 and its body is that credential's
    metadata serialization, the five fields [credential_id],
    [credential_type], [key_names], [created_at], [updated_at]; so a
    response is a 404 exactly when the store returned [None]. *)
Theorem handle_get_credential_spec (request : Request) (cid : string)
    (s : state w) :
  lookup "credential_id" (match_info request) = Some cid ->
  let o := run w (handle_get_credential request) s in
  let a := answer w (get_credential cid false) s in
  calls_of o = [Invoked (get_credential cid false) (fst a)] /\
  final_state o = snd a /\
  match fst a with
  | inl e => result_of o = inl e
  | inr None =>
      result_of o =
      inr (json_response
             (Dict [("error", Str ("Credential '" ++ cid ++ "' not found"))])
             404)
  | inr (Some cred) =>
      result_of o = inr (json_response (_credential_to_dict cred) 200) /\
      _credential_to_dict cred =
      Dict [ ("credential_id", id cred);
             ("credential_type", Str (CredentialType_str (credential_type cred)));
             ("key_names", List (map Str (dict_keys (keys cred))));
             ("created_at",
              match created_at cred with
              | Some t => Str (isoformat t)
              | None => Null
              end);
             ("updated_at",
              match updated_at cred with
              | Some t => Str (isoformat t)
              | None => Null
              end) ]
  end /\
  (forall resp, result_of o = inr resp ->
     (status resp = 404%Z /\ (exists msg, field (body resp) "error" = Some msg)
      <-> fst a = inr None)).
Proof.
  intros Hcid o a. subst o a.
  unfold handle_get_credential, match_info_getitem. rewrite Hcid. simpl.
  unfold calls_of, final_state, result_of.
  destruct (answer w (get_credential cid false) s) as [[e | [cred |]] s1];
    simpl;
    (split; [reflexivity | split; [reflexivity | split; [auto |]]]);
    intros resp [= <-]; simpl; split; try discriminate; eauto.
  intros [Hst _]. discriminate Hst.
Qed.

(** C3.  With the route's [credential_id] segment [cid], DELETE
    /api/credentials/{credential_id} makes exactly one call,
    [store.delete_credential(cid)].  When the call returns a falsy value
    the response is 404 with an error body; when it returns a truthy value
    the response is 200 with [{"deleted": true}]; so a response is a 404
    exactly when the store returned a falsy value. *)
Theorem handle_delete_credential_spec (request : Request) (cid : string)
    (s : state w) :
  lookup "credential_id" (match_info request) = Some cid ->
  let o := run w (handle_delete_credential request) s in
  let a := answer w (delete_credential cid) s in
  calls_of o = [Invoked (delete_credential cid) (fst a)] /\
  final_state o = snd a /\
  match fst a with
  | inl e => result_of o = inl e
  | inr deleted =>
      result_of o =
      inr (if truthy deleted
           then json_response (Dict [("deleted", Bool true)]) 200
           else json_response
                  (Dict [("error",
                          Str ("Credential '" ++ cid ++ "' not found"))])
                  404)
  end /\
  (forall resp, result_of o = inr resp ->
     (status resp = 404%Z /\ (exists msg, field (body resp) "error" = Some msg)
      <-> exists deleted, fst a = inr deleted /\ truthy deleted = false)).
Proof.
  intros Hcid o a. subst o a.
  unfold handle_delete_credential, match_info_getitem. rewrite Hcid. simpl.
  unfold calls_of, final_state, result_of.
  destruct (answer w (delete_credential cid) s) as [[e | deleted] s1];
    simpl; [repeat split; trivial; discriminate |].
  destruct (truthy deleted) eqn:Ht; simpl;
    (split; [reflexivity | split; [reflexivity | split; [reflexivity |]]]);
    intros resp [= <-]; simpl; split.
  - intros [Hst _]. discriminate Hst.
  - intros (v & [= <-] & Hv). congruence.
  - eauto.
  - eauto.
Qed.

End ItemRoutes.

Lemma handle_get_credential_spec_witness :
  result_of
    (run MemoryStore.demo (handle_get_credential (MemoryStore.item "github"))
       [MemoryStore.github "t0k3n"]) =
  inr (json_response
         (Dict [ ("credential_id", Str "github");
                 ("credential_type", Str "api_key");
                 ("key_names", List [Str "token"]);
                 ("created_at", Str "2025-01-01T00:00:00");
                 ("updated_at", Null) ]) 200) /\
  result_of
    (run MemoryStore.demo (handle_get_credential (MemoryStore.item "gitlab"))
       [MemoryStore.github "t0k3n"]) =
  inr (json_response
         (Dict [("error", Str "Credential 'gitlab' not found")]) 404).
Proof.
  split.
  - apply (handle_get_credential_spec MemoryStore.demo
             (MemoryStore.item "github") (cid := "github")
             [MemoryStore.github "t0k3n"] eq_refl).
  - apply (handle_get_credential_spec MemoryStore.demo
             (MemoryStore.item "gitlab") (cid := "gitlab")
             [MemoryStore.github "t0k3n"] eq_refl).
Defined.

Lemma handle_delete_credential_spec_witness :
  result_of
    (run MemoryStore.demo (handle_delete_credential (MemoryStore.item "github"))
       [MemoryStore.github "t0k3n"]) =
  inr (json_response (Dict [("deleted", Bool true)]) 200) /\
  result_of
    (run MemoryStore.demo (handle_delete_credential (MemoryStore.item "gitlab"))
       [MemoryStore.github "t0k3n"]) =
  inr (json_response
         (Dict [("error", Str "Credential 'gitlab' not found")]) 404).
Proof.
  split.
  - apply (handle_delete_credential_spec MemoryStore.demo
             (MemoryStore.item "github") (cid := "github")
             [MemoryStore.github "t0k3n"] eq_refl).
  - apply (handle_delete_credential_spec MemoryStore.demo
             (MemoryStore.item "gitlab") (cid := "gitlab")
             [MemoryStore.github "t0k3n"] eq_refl).
Defined.

(** ** GET /api/credentials *)

Lemma list_credentials_loop_returned (w : World) (ids : list string)
    (credentials : list value) (s : state w) :
  Forall returned (calls_of (run w (list_credentials_loop ids credentials) s)) ->
  exists results,
    length results = length ids /\
    calls_of (run w (list_credentials_loop ids credentials) s) =
      reads ids results /\
    result_of (run w (list_credentials_loop ids credentials) s) =
      inr (credentials ++ map _credential_to_dict (present results))%list.
Proof.
  revert credentials s.
  induction ids as [| cid rest IH]; intros credentials s; simpl.
  - intros _. exists []. rewrite app_nil_r. now repeat split.
  - destruct (answer w (get_credential cid false) s) as [[e | r] s1].
    + unfold calls_of; simpl. intros H. first_call_raised H.
    + destruct r as [c |].
      * specialize (IH (credentials ++ [_credential_to_dict c])%list s1).
        destruct (run w (list_credentials_loop rest _) s1) as [[o s2] t].
        unfold calls_of, result_of in *; simpl in *.
        intros H. inversion H as [| ? ? _ Ht]; subst.
        destruct (IH Ht) as (results & Hlen & Hcalls & Hres).
        exists (Some c :: results). simpl.
        rewrite Hlen, Hcalls, Hres, <- app_assoc. now repeat split.
      * specialize (IH credentials s1).
        destruct (run w (list_credentials_loop rest _) s1) as [[o s2] t].
        unfold calls_of, result_of in *; simpl in *.
        intros H. inversion H as [| ? ? _ Ht]; subst.
        destruct (IH Ht) as (results & Hlen & Hcalls & Hres).
        exists (None :: results). simpl.
        rewrite Hlen, Hcalls, Hres. now repeat split.
Qed.

Lemma list_credentials_loop_reads (w : World) (ids : list string)
    (credentials : list value) (s : state w) :
  Forall read_without_refresh
    (calls_of (run w (list_credentials_loop ids credentials) s)).
Proof.
  revert credentials s.
  induction ids as [| cid rest IH]; intros credentials s; simpl.
  - constructor.
  - destruct (answer w (get_credential cid false) s) as [[e | r] s1].
    + repeat constructor.
    + assert (Hrest : forall acc,
                Forall read_without_refresh
                  (calls_of (run w (list_credentials_loop rest acc) s1)))
        by (intros acc; apply IH).
      destruct r as [c |].
      * specialize (Hrest (credentials ++ [_credential_to_dict c])%list).
        destruct (run w (list_credentials_loop rest _) s1) as [[o s2] t].
        constructor; [reflexivity | exact Hrest].
      * specialize (Hrest credentials).
        destruct (run w (list_credentials_loop rest _) s1) as [[o s2] t].
        constructor; [reflexivity | exact Hrest].
Qed.

Lemma list_credentials_loop_state (w : World) (ids : list string)
    (credentials : list value) (s : state w) :
  (forall cid s0, snd (answer w (get_credential cid false) s0) = s0) ->
  final_state (run w (list_credentials_loop ids credentials) s) = s.
Proof.
  intros Hget. revert credentials s.
  induction ids as [| cid rest IH]; intros credentials s; simpl.
  - reflexivity.
  - specialize (Hget cid s).
    destruct (answer w (get_credential cid false) s) as [[e | r] s1];
      simpl in Hget; subst s1.
    + reflexivity.
    + destruct r as [c |].
      * specialize (IH (credentials ++ [_credential_to_dict c])%list s).
        destruct (run w (list_credentials_loop rest _) s) as [[o s2] t].
        exact IH.
      * specialize (IH credentials s).
        destruct (run w (list_credentials_loop rest _) s) as [[o s2] t].
        exact IH.
Qed.

(** C4.  GET /api/credentials first calls [store.list_credentials()] and
    then, for each id it returned and in that order,
    [store.get_credential(cid, refresh_if_needed=False)].  When these
    calls return, the response is 200 and its [credentials] field is the
    list of the metadata serializations of the credentials that came
    back, in the order of the ids, the ids answered with [None] left
    out. *)
Theorem handle_list_credentials_spec (w : World) (request : Request)
    (s : state w) :
  let o := run w (handle_list_credentials request) s in
  Forall returned (calls_of o) ->
  exists ids results,
    length results = length ids /\
    calls_of o = Invoked list_credentials (inr ids) :: reads ids results /\
    result_of o =
      inr (json_response
             (Dict [("credentials",
                     List (map _credential_to_dict (present results)))])
             200).
Proof.
  intros o. subst o.
  unfold handle_list_credentials. simpl.
  destruct (answer w list_credentials s) as [[e | ids] s1].
  - unfold calls_of; simpl. intros H. first_call_raised H.
  - rewrite run_bind.
    pose proof (list_credentials_loop_returned w ids [] s1) as Hloop.
    destruct (run w (list_credentials_loop ids []) s1) as [[[e | creds] s2] t];
      unfold calls_of, result_of in *; simpl in *;
      intros H; inversion H as [| ? ? _ Ht]; subst.
    + destruct (Hloop Ht) as (results & _ & _ & Hres). discriminate Hres.
    + rewrite app_nil_r in *.
      destruct (Hloop Ht) as (results & Hlen & Hcalls & Hres).
      injection Hres as ->.
      exists ids, results. rewrite Hcalls. now repeat split.
Qed.

Lemma handle_list_credentials_spec_witness :
  exists ids results,
    length results = length ids /\
    calls_of
      (run MemoryStore.demo (handle_list_credentials MemoryStore.listing)
         [MemoryStore.github "t0k3n"]) =
    Invoked list_credentials (inr ids) :: reads ids results /\
    result_of
      (run MemoryStore.demo (handle_list_credentials MemoryStore.listing)
         [MemoryStore.github "t0k3n"]) =
    inr (json_response
           (Dict [("credentials",
                   List (map _credential_to_dict (present results)))])
           200).
Proof.
  apply (handle_list_credentials_spec MemoryStore.demo MemoryStore.listing
           [MemoryStore.github "t0k3n"]).
  repeat constructor.
Defined.

(** ** The metadata routes leave the store alone and show no secret *)

(** C10.  Every call GET /api/credentials and GET
    /api/credentials/{credential_id} make is [store.list_credentials()]
    or [store.get_credential(_, refresh_if_needed=False)]: no read asks
    for a refresh, and nothing is saved or deleted.  Hence, with a store
    whose listing and whose reads without refresh leave it as it was,
    both routes end in the state they started in. *)
Theorem metadata_routes_never_refresh (w : World) (request : Request)
    (s : state w) :
  Forall read_without_refresh
    (calls_of (run w (handle_list_credentials request) s)) /\
  Forall read_without_refresh
    (calls_of (run w (handle_get_credential request) s)) /\
  ((forall s0, snd (answer w list_credentials s0) = s0) ->
   (forall cid s0, snd (answer w (get_credential cid false) s0) = s0) ->
   final_state (run w (handle_list_credentials request) s) = s /\
   final_state (run w (handle_get_credential request) s) = s).
Proof.
  split; [| split].
  - unfold handle_list_credentials. simpl.
    destruct (answer w list_credentials s) as [[e | ids] s1].
    + repeat constructor.
    + rewrite run_bind.
      pose proof (list_credentials_loop_reads w ids [] s1) as Hloop.
      destruct (run w (list_credentials_loop ids []) s1)
        as [[[e | creds] s2] t]; simpl.
      * constructor; [exact I | exact Hloop].
      * rewrite app_nil_r. constructor; [exact I | exact Hloop].
  - unfold handle_get_credential, match_info_getitem.
    destruct (lookup "credential_id" (match_info request)) as [cid |]; simpl.
    + destruct (answer w (get_credential cid false) s) as [[e | [c |]] s1];
        repeat constructor.
    + constructor.
  - intros Hlist Hget. split.
    + unfold handle_list_credentials. simpl.
      specialize (Hlist s).
      destruct (answer w list_credentials s) as [[e | ids] s1];
        simpl in Hlist; subst s1; [reflexivity |].
      rewrite run_bind.
      pose proof (list_credentials_loop_state w ids [] s Hget) as Hloop.
      destruct (run w (list_credentials_loop ids []) s)
        as [[[e | creds] s2] t]; exact Hloop.
    + unfold handle_get_credential, match_info_getitem.
      destruct (lookup "credential_id" (match_info request)) as [cid |];
        simpl; [| reflexivity].
      specialize (Hget cid s).
      destruct (answer w (get_credential cid false) s) as [[e | [c |]] s1];
        simpl in Hget; subst s1; reflexivity.
Qed.

Lemma metadata_routes_never_refresh_witness :
  final_state
    (run MemoryStore.demo (handle_list_credentials (MemoryStore.item "github"))
       [MemoryStore.github "t0k3n"]) = [MemoryStore.github "t0k3n"] /\
  final_state
    (run MemoryStore.demo (handle_get_credential (MemoryStore.item "github"))
       [MemoryStore.github "t0k3n"]) = [MemoryStore.github "t0k3n"].
Proof.
  apply (metadata_routes_never_refresh MemoryStore.demo
           (MemoryStore.item "github") [MemoryStore.github "t0k3n"]).
  - intros s0. reflexivity.
  - intros cid s0. reflexivity.
Defined.

Lemma _credential_to_dict_metadata (c1 c2 : CredentialObject) :
  same_metadata c1 c2 -> _credential_to_dict c1 = _credential_to_dict c2.
Proof.
  intros (Hid & Hty & Hkeys & Hc & Hu).
  unfold _credential_to_dict. now rewrite Hid, Hty, Hkeys, Hc, Hu.
Qed.

Lemma list_credentials_loop_agree (w1 w2 : World)
    (R : state w1 -> state w2 -> Prop) (ids : list string)
    (credentials : list value) (s1 : state w1) (s2 : state w2) :
  stores_agree w1 w2 R ->
  R s1 s2 ->
  result_of (run w1 (list_credentials_loop ids credentials) s1) =
  result_of (run w2 (list_credentials_loop ids credentials) s2).
Proof.
  intros Hagree. revert credentials s1 s2.
  induction ids as [| cid rest IH]; intros credentials s1 s2 HR; simpl.
  - reflexivity.
  - destruct (agree_get Hagree cid s1 s2 HR) as [Hres HR'].
    destruct (answer w1 (get_credential cid false) s1) as [[e1 | r1] s1'],
             (answer w2 (get_credential cid false) s2) as [[e2 | r2] s2'];
      simpl in Hres, HR'.
    + now subst e2.
    + contradiction.
    + destruct r1; contradiction.
    + destruct r1 as [c1 |], r2 as [c2 |]; try contradiction.
      * rewrite (_credential_to_dict_metadata Hres).
        specialize (IH (credentials ++ [_credential_to_dict c2])%list
                      s1' s2' HR').
        destruct (run w1 (list_credentials_loop rest _) s1') as [[o1 u1] t1],
                 (run w2 (list_credentials_loop rest _) s2') as [[o2 u2] t2].
        exact IH.
      * specialize (IH credentials s1' s2' HR').
        destruct (run w1 (list_credentials_loop rest _) s1') as [[o1 u1] t1],
                 (run w2 (list_credentials_loop rest _) s2') as [[o2 u2] t2].
        exact IH.
Qed.

(** C5, as amended.  The metadata serialization of a credential is a
    function of its id, credential type, key names in the order of the
    keys dict, and timestamps alone; and for two stores that agree on
    those and are free to differ in the secret values of the keys, GET
    /api/credentials and GET /api/credentials/{credential_id} produce the
    same outcome, response for response. *)
Theorem metadata_responses_hide_secrets (w1 w2 : World)
    (R : state w1 -> state w2 -> Prop) :
  stores_agree w1 w2 R ->
  (forall c1 c2, same_metadata c1 c2 ->
     _credential_to_dict c1 = _credential_to_dict c2) /\
  (forall request s1 s2, R s1 s2 ->
     result_of (run w1 (handle_list_credentials request) s1) =
     result_of (run w2 (handle_list_credentials request) s2) /\
     result_of (run w1 (handle_get_credential request) s1) =
     result_of (run w2 (handle_get_credential request) s2)).
Proof.
  intros Hagree. split; [exact _credential_to_dict_metadata |].
  intros request s1 s2 HR. split.
  - unfold handle_list_credentials. simpl.
    destruct (agree_list Hagree s1 s2 HR) as [Hres HR'].
    destruct (answer w1 list_credentials s1) as [[e1 | ids1] s1'],
             (answer w2 list_credentials s2) as [[e2 | ids2] s2'];
      simpl in Hres, HR'; try discriminate Hres.
    + now injection Hres as ->.
    + injection Hres as <-.
      rewrite !run_bind.
      pose proof (list_credentials_loop_agree ids1 [] s1' s2' Hagree HR')
        as Hloop.
      destruct (run w1 (list_credentials_loop ids1 []) s1')
        as [[[e1 | creds1] u1] t1],
        (run w2 (list_credentials_loop ids1 []) s2')
        as [[[e2 | creds2] u2] t2];
        unfold result_of in *; simpl in *; congruence.
  - unfold handle_get_credential, match_info_getitem.
    destruct (lookup "credential_id" (match_info request)) as [cid |];
      simpl; [| reflexivity].
    destruct (agree_get Hagree cid s1 s2 HR) as [Hres _].
    destruct (answer w1 (get_credential cid false) s1) as [[e1 | r1] s1'],
             (answer w2 (get_credential cid false) s2) as [[e2 | r2] s2'];
      simpl in Hres.
    + now subst e2.
    + contradiction.
    + destruct r1; contradiction.
    + destruct r1 as [c1 |], r2 as [c2 |]; try contradiction;
        [| reflexivity].
      unfold result_of; simpl.
      now rewrite (_credential_to_dict_metadata Hres).
Qed.

Lemma memory_stores_agree :
  stores_agree MemoryStore.demo MemoryStore.demo (Forall2 same_metadata).
Proof.
  split; simpl.
  - intros s1 s2 HR. split; [| exact HR]. f_equal.
    induction HR as [| c1 c2 l1 l2 (Hid & _) _ IH]; simpl; [reflexivity |].
    unfold MemoryStore.stored_id at 1 3. rewrite Hid. now f_equal.
  - intros cid s1 s2 HR. split; [| exact HR].
    induction HR as [| c1 c2 l1 l2 Hc _ IH]; simpl; [exact I |].
    unfold MemoryStore.has_id at 1 3.
    pose proof Hc as (Hid & _). rewrite <- Hid.
    destruct (id c1) as [| | | | a | |]; try exact IH.
    destruct (cid =? a); [exact Hc | exact IH].
Qed.

Lemma metadata_responses_hide_secrets_witness :
  result_of
    (run MemoryStore.demo (handle_list_credentials (MemoryStore.item "github"))
       [MemoryStore.github "t0k3n"]) =
  result_of
    (run MemoryStore.demo (handle_list_credentials (MemoryStore.item "github"))
       [MemoryStore.github "hunter2"]) /\
  result_of
    (run MemoryStore.demo (handle_get_credential (MemoryStore.item "github"))
       [MemoryStore.github "t0k3n"]) =
  result_of
    (run MemoryStore.demo (handle_get_credential (MemoryStore.item "github"))
       [MemoryStore.github "hunter2"]).
Proof.
  apply (metadata_responses_hide_secrets memory_stores_agree).
  repeat constructor.
Defined.

(** C5, as stated, fails: two stores whose one credential has the same
    id, type, timestamps, key names as a set and even the same secret
    under each name, the keys stored in the opposite order, get different
    responses from both GET routes, because [key_names] follows the order
    of the keys dict. *)
Lemma key_order_shows_in_responses :
  same_metadata_key_sets (MemoryStore.login "username" "password")
    (MemoryStore.login "password" "username") /\
  _credential_to_dict (MemoryStore.login "username" "password") <>
  _credential_to_dict (MemoryStore.login "password" "username") /\
  result_of
    (run MemoryStore.demo (handle_get_credential (MemoryStore.item "login"))
       [MemoryStore.login "username" "password"]) <>
  result_of
    (run MemoryStore.demo (handle_get_credential (MemoryStore.item "login"))
       [MemoryStore.login "password" "username"]) /\
  result_of
    (run MemoryStore.demo (handle_list_credentials MemoryStore.listing)
       [MemoryStore.login "username" "password"]) <>
  result_of
    (run MemoryStore.demo (handle_list_credentials MemoryStore.listing)
       [MemoryStore.login "password" "username"]).
Proof.
  split; [| split; [| split]].
  - repeat split; simpl; tauto.
  - intros H. discriminate H.
  - intros H. discriminate H.
  - intros H. discriminate H.
Qed.

(** ** POST /api/credentials/check-agent *)

Lemma returned_not_raised (i : invocation) : returned i <-> raised i = None.
Proof.
  destruct i as [X c [e | x]]; simpl; split; intros H;
    trivial; try discriminate; contradiction.
Qed.

Lemma raised_last (pre : list invocation) (last i : invocation)
    (e : Exception) :
  Forall returned pre ->
  In i (pre ++ [last]) ->
  raised i = Some e ->
  raised last = Some e.
Proof.
  intros Hpre Hin Hi. apply in_app_or in Hin. destruct Hin as [Hin | [<- | []]].
  - rewrite Forall_forall in Hpre. apply Hpre, returned_not_raised in Hin.
    congruence.
  - exact Hi.
Qed.

(** A run of the [for mc in session.missing] loop either asks the store
    about every requirement and returns the extended list, or stops at the
    first [is_available] that raises. *)
Lemma required_loop_runs (w : World) (l : list MissingCredential)
    (required : list value) (s : state w) :
  (exists availables,
     length availables = length l /\
     calls_of (run w (required_loop l required) s) =
       availability_checks l availables /\
     result_of (run w (required_loop l required) s) =
       inr (required ++ required_entries l availables)%list) \/
  (exists e pre last,
     calls_of (run w (required_loop l required) s) = (pre ++ [last])%list /\
     Forall returned pre /\
     raised last = Some e /\
     result_of (run w (required_loop l required) s) = inl e).
Proof.
  revert required s.
  induction l as [| mc rest IH]; intros required s; simpl.
  - left. exists []. rewrite app_nil_r. now repeat split.
  - unfold or_. fold (resolved_id mc).
    destruct (answer w (is_available (resolved_id mc)) s) as [[e | a] s1].
    + right. exists e, [], (Invoked (is_available (resolved_id mc)) (inl e)).
      now repeat split.
    + specialize (IH (required ++ [required_entry mc (resolved_id mc) a])%list
                    s1).
      destruct (run w (required_loop rest _) s1) as [[o s2] t].
      unfold calls_of, result_of in *; simpl in *.
      destruct IH as [(availables & Hlen & Hcalls & Hres)
                     | (e & pre & last & Hcalls & Hpre & Hlast & Hres)].
      * left. exists (a :: availables). simpl.
        rewrite Hlen, Hcalls, Hres, <- app_assoc. now repeat split.
      * right.
        exists e, (Invoked (is_available (resolved_id mc)) (inr a) :: pre), last.
        rewrite Hcalls. repeat split; trivial.
        constructor; [exact I | exact Hpre].
Qed.

(** A run of the [try] block either goes through and returns the 200
    response, or stops at the first call that raises. *)
Lemma check_agent_block_runs (w : World) (agent_path : value) (s : state w) :
  (exists session availables,
     length availables = length (missing session) /\
     calls_of (run w (check_agent_block agent_path) s) =
       Invoked import_CredentialSetupSession (inr tt)
       :: Invoked (from_agent_path agent_path false) (inr session)
       :: availability_checks (missing session) availables /\
     result_of (run w (check_agent_block agent_path) s) =
       inr (json_response
              (Dict [("required",
                      List (required_entries (missing session) availables))])
              200)) \/
  (exists e pre last,
     calls_of (run w (check_agent_block agent_path) s) = (pre ++ [last])%list /\
     Forall returned pre /\
     raised last = Some e /\
     result_of (run w (check_agent_block agent_path) s) = inl e).
Proof.
  unfold check_agent_block. simpl.
  destruct (answer w import_CredentialSetupSession s) as [[e | []] s1].
  { right. exists e, [], (Invoked import_CredentialSetupSession (inl e)).
    now repeat split. }
  destruct (answer w (from_agent_path agent_path false) s1)
    as [[e | session] s2].
  { right.
    exists e, [Invoked import_CredentialSetupSession (inr tt)],
      (Invoked (from_agent_path agent_path false) (inl e)).
    repeat split. now repeat constructor. }
  rewrite run_bind.
  pose proof (required_loop_runs w (missing session) [] s2) as Hloop.
  destruct (run w (required_loop (missing session) []) s2)
    as [[[e | required] s3] t];
    unfold calls_of, result_of in *; simpl in *;
    destruct Hloop as [(availables & Hlen & Hcalls & Hres)
                      | (e' & pre & last & Hcalls & Hpre & Hlast & Hres)];
    try discriminate Hres.
  - right. injection Hres as <-.
    exists e,
      (Invoked import_CredentialSetupSession (inr tt)
       :: Invoked (from_agent_path agent_path false) (inr session) :: pre),
      last.
    rewrite Hcalls. repeat split; trivial. now repeat constructor.
  - left. injection Hres as ->. exists session, availables.
    rewrite app_nil_r, Hcalls. now repeat split.
Qed.

(** On a dict body the route answers 400 without a call when
    [agent_path] is falsy; otherwise its outcome is that of the [try]
    block, an exception of the block being turned into the 500 response. *)
Lemma handle_check_agent_dict (w : World) (mi : list (string * string))
    (d : list (string * value)) (s : state w) :
  run w (handle_check_agent (mkRequest mi (inr (Dict d)))) s =
  if truthy (dict_get d "agent_path") then
    match run w (check_agent_block (dict_get d "agent_path")) s with
    | (inr resp, s1, t) => (inr resp, s1, t)
    | (inl e, s1, t) =>
        (inr (json_response (Dict [("error", Str (exc_str e))]) 500), s1, t)
    end
  else
    (inr (json_response (Dict [("error", Str "agent_path is required")]) 400),
     s, []).
Proof.
  unfold handle_check_agent, request_json.
  cbn -[check_agent_block].
  destruct (truthy (dict_get d "agent_path")); cbn -[check_agent_block];
    [| reflexivity].
  destruct (run w (check_agent_block (dict_get d "agent_path")) s)
    as [[[e | resp] s1] t]; cbn; now rewrite ?app_nil_r.
Qed.

Lemma absent_or_falsy_truthy (d : list (string * value)) (k : string) :
  absent_or_falsy d k <-> truthy (dict_get d k) = false.
Proof.
  unfold absent_or_falsy, dict_get.
  destruct (lookup k d); simpl; tauto.
Qed.

(** C7.  On a body that is a dict, POST /api/credentials/check-agent
    answers 400 with the fixed error message, calling nothing, when
    [agent_path] is absent or falsy.  Otherwise, when a call it makes (the
    import of the setup module, the construction of the session with
    [missing_only=False], a [store.is_available]) raises, the response is
    500 and its [error] field is the string of that exception; and when
    every call returns, the session was built from [agent_path] with
    [missing_only=False], the store was asked once about each element of
    the session's [missing] list, and the response is 200 with a
    [required] list of as many entries as that list has elements. *)
Theorem handle_check_agent_spec (w : World) (mi : list (string * string))
    (d : list (string * value)) (s : state w) :
  let o := run w (handle_check_agent (mkRequest mi (inr (Dict d)))) s in
  (absent_or_falsy d "agent_path" ->
   o = (inr (json_response (Dict [("error", Str "agent_path is required")])
               400), s, [])) /\
  (~ absent_or_falsy d "agent_path" ->
   (forall i e, In i (calls_of o) -> raised i = Some e ->
      result_of o =
      inr (json_response (Dict [("error", Str (exc_str e))]) 500)) /\
   (Forall returned (calls_of o) ->
      exists agent_path session availables required,
        lookup "agent_path" d = Some agent_path /\
        calls_of o =
          Invoked import_CredentialSetupSession (inr tt)
          :: Invoked (from_agent_path agent_path false) (inr session)
          :: availability_checks (missing session) availables /\
        length availables = length (missing session) /\
        length required = length (missing session) /\
        result_of o =
          inr (json_response (Dict [("required", List required)]) 200))).
Proof.
  intros o. subst o. rewrite handle_check_agent_dict.
  pose proof (absent_or_falsy_truthy d "agent_path") as Hfalsy.
  destruct (truthy (dict_get d "agent_path")) eqn:Ht.
  2: { split; [reflexivity |]. intros Hn. contradiction Hn. now apply Hfalsy. }
  split.
  { intros Ha. apply Hfalsy in Ha. discriminate Ha. }
  intros _.
  assert (Hap : lookup "agent_path" d = Some (dict_get d "agent_path")).
  { unfold dict_get in *.
    destruct (lookup "agent_path" d); [reflexivity | discriminate Ht]. }
  pose proof (check_agent_block_runs w (dict_get d "agent_path") s) as Hblock.
  destruct (run w (check_agent_block (dict_get d "agent_path")) s)
    as [[[e | resp] s1] t];
    unfold calls_of, result_of in *; simpl in *;
    destruct Hblock as [(session & availables & Hlen & Hcalls & Hres)
                       | (e' & pre & last & Hcalls & Hpre & Hlast & Hres)];
    try discriminate Hres.
  - injection Hres as <-. subst t. split.
    + intros i e0 Hin Hi.
      pose proof (raised_last _ _ Hpre Hin Hi) as Hlast'.
      congruence.
    + intros Hall. apply Forall_app in Hall. destruct Hall as [_ Hall].
      inversion Hall as [| ? ? Hr _]; subst.
      apply returned_not_raised in Hr. congruence.
  - injection Hres as ->. subst t. split.
    + intros i e0 Hin Hi. exfalso.
      assert (Hret : returned i).
      { destruct Hin as [<- | [<- | Hin]]; try exact I.
        unfold availability_checks in Hin. apply in_map_iff in Hin.
        destruct Hin as ([mc a] & <- & _). exact I. }
      apply returned_not_raised in Hret. congruence.
    + intros _.
      exists (dict_get d "agent_path"), session, availables,
        (required_entries (missing session) availables).
      repeat split; trivial.
      unfold required_entries.
      now rewrite length_map, length_combine, Hlen, Nat.min_id.
Qed.

Lemma required_entries_fields (l : list MissingCredential)
    (availables : list value) :
  Forall2
    (fun (p : MissingCredential * value) (entry : value) =>
       field entry "credential_id" = Some (resolved_id (fst p)) /\
       field entry "available" = Some (snd p))
    (combine l availables) (required_entries l availables).
Proof.
  unfold required_entries.
  induction (combine l availables) as [| [mc a] rest IH]; simpl;
    constructor; [split; reflexivity | exact IH].
Qed.

(** C8.  When POST /api/credentials/check-agent answers with a [required]
    list, the handler has asked the store, for each requirement of the
    session in turn, whether the requirement's resolved id is available
    (its [credential_id] when that is truthy, else its
    [credential_name]); and the entry of each requirement carries that
    same resolved id as [credential_id] and the store's answer as
    [available]. *)
Theorem required_entries_resolved (w : World) (request : Request)
    (s : state w) (resp : Response) (required : list value) :
  let o := run w (handle_check_agent request) s in
  result_of o = inr resp ->
  field (body resp) "required" = Some (List required) ->
  exists agent_path session availables,
    length availables = length (missing session) /\
    calls_of o =
      Invoked import_CredentialSetupSession (inr tt)
      :: Invoked (from_agent_path agent_path false) (inr session)
      :: map (fun '(mc, available) =>
                Invoked (is_available (resolved_id mc)) (inr available))
           (combine (missing session) availables) /\
    Forall2
      (fun (p : MissingCredential * value) (entry : value) =>
         let (mc, available) := p in
         field entry "credential_id" =
           Some (if truthy (credential_id mc) then credential_id mc
                 else credential_name mc) /\
         field entry "available" = Some available)
      (combine (missing session) availables) required.
Proof.
  intros o Hres Hreq. subst o.
  destruct request as [mi [e | body]]; [discriminate Hres |].
  destruct body as [| | | | | | d]; try discriminate Hres.
  revert Hres. rewrite handle_check_agent_dict.
  destruct (truthy (dict_get d "agent_path")).
  2: { intros [= <-]. discriminate Hreq. }
  pose proof (check_agent_block_runs w (dict_get d "agent_path") s) as Hblock.
  destruct (run w (check_agent_block (dict_get d "agent_path")) s)
    as [[[e | resp'] s1] t];
    unfold calls_of, result_of in *; simpl in *.
  { intros [= <-]. discriminate Hreq. }
  intros [= ->].
  destruct Hblock as [(session & availables & Hlen & Hcalls & Hres)
                     | (e' & pre & last & Hcalls & Hpre & Hlast & Hres)];
    [| discriminate Hres].
  injection Hres as ->. simpl in Hreq. injection Hreq as <-.
  exists (dict_get d "agent_path"), session, availables.
  repeat split; trivial.
  pose proof (required_entries_fields (missing session) availables) as Hf.
  eapply Forall2_impl; [| exact Hf].
  intros [mc a] entry. exact (fun H => H).
Qed.

Lemma handle_check_agent_spec_witness :
  result_of
    (run MemoryStore.demo (handle_check_agent (MemoryStore.check "nope")) []) =
  inr (json_response (Dict [("error", Str "agent not found: nope")]) 500) /\
  (exists agent_path session availables required,
     lookup "agent_path" [("agent_path", Str "exports/demo")] =
       Some agent_path /\
     calls_of
       (run MemoryStore.demo
          (handle_check_agent (MemoryStore.check "exports/demo")) []) =
       Invoked import_CredentialSetupSession (inr tt)
       :: Invoked (from_agent_path agent_path false) (inr session)
       :: availability_checks (missing session) availables /\
     length availables = length (missing session) /\
     length required = length (missing session) /\
     result_of
       (run MemoryStore.demo
          (handle_check_agent (MemoryStore.check "exports/demo")) []) =
     inr (json_response (Dict [("required", List required)]) 200)) /\
  run MemoryStore.demo
    (handle_check_agent (mkRequest [] (inr (Dict [("agent_path", Str "")]))))
    [] =
  (inr (json_response (Dict [("error", Str "agent_path is required")]) 400),
   [], []).
Proof.
  split; [| split].
  - destruct (handle_check_agent_spec MemoryStore.demo []
                [("agent_path", Str "nope")] []) as [_ Hcalls].
    destruct Hcalls as [Hraise _].
    + intros Ha. discriminate Ha.
    + apply (Hraise
               (Invoked (from_agent_path (Str "nope") false)
                  (inl (MemoryStore.FileNotFoundError (Str "nope"))))
               (MemoryStore.FileNotFoundError (Str "nope"))).
      * right. left. reflexivity.
      * reflexivity.
  - destruct (handle_check_agent_spec MemoryStore.demo []
                [("agent_path", Str "exports/demo")] []) as [_ Hcalls].
    destruct Hcalls as [_ Hreturn].
    + intros Ha. discriminate Ha.
    + apply Hreturn. repeat constructor.
  - apply (handle_check_agent_spec MemoryStore.demo []
             [("agent_path", Str "")] []).
    reflexivity.
Defined.

Lemma required_entries_resolved_witness :
  exists agent_path session availables,
    length availables = length (missing session) /\
    calls_of
      (run MemoryStore.demo
         (handle_check_agent (MemoryStore.check "exports/demo"))
         [MemoryStore.github "t0k3n"]) =
      Invoked import_CredentialSetupSession (inr tt)
      :: Invoked (from_agent_path agent_path false) (inr session)
      :: map (fun '(mc, available) =>
                Invoked (is_available (resolved_id mc)) (inr available))
           (combine (missing session) availables) /\
    Forall2
      (fun (p : MissingCredential * value) (entry : value) =>
         let (mc, available) := p in
         field entry "credential_id" =
           Some (if truthy (credential_id mc) then credential_id mc
                 else credential_name mc) /\
         field entry "available" = Some available)
      (combine (missing session) availables)
      [ required_entry (MemoryStore.needs (Str "github") (Str ""))
          (Str "github") (Bool true);
        required_entry (MemoryStore.needs (Str "slack") (Str "slack_bot"))
          (Str "slack_bot") (Bool false) ].
Proof.
  eapply (required_entries_resolved MemoryStore.demo
            (MemoryStore.check "exports/demo") [MemoryStore.github "t0k3n"]);
    reflexivity.
Defined.

(** ** All five handlers *)

(** The handlers behind the registered routes. *)
Lemma registered_handlers (dct : CredentialType) (dca dua : option datetime)
    (m : http_method) (path : string) (handler : Request -> prog Response) :
  In (m, path, handler) (register_routes dct dca dua) ->
  handler = handle_check_agent \/
  handler = handle_list_credentials \/
  handler = handle_save_credential dct dca dua \/
  handler = handle_get_credential \/
  handler = handle_delete_credential.
Proof.
  intros Hin.
  destruct Hin as [[= <- <- <-] | [[= <- <- <-] | [[= <- <- <-]
                  | [[= <- <- <-] | [[= <- <- <-] | [[= <- <- <-]
                  | [[= <- <- <-] | []]]]]]]]; tauto.
Qed.









Section AllRoutes.

Variable w : World.
Variable default_credential_type : CredentialType.
Variables default_created_at default_updated_at : option datetime.




End AllRoutes.



(** * Further properties of the routes *)

(** ** What a raising store does to the CRUD routes *)

Lemma try_free_bind (A B : Type) (p : prog A) (f : A -> prog B) :
  try_free p -> (forall a, try_free (f a)) -> try_free (prog_bind p f).
Proof.
  intros Hp Hf.
  induction p as [A r | A e | A X c k IH | A X block IHb except IHe k IH];
    simpl in *; auto.
Qed.

(** A run of code without [try] either has all its calls return, or ends
    with the first call that raises, whose exception is the result. *)
Lemma run_try_free (w : World) (R : Type) (p : prog R) (s : state w) :
  try_free p ->
  Forall returned (calls_of (run w p s)) \/
  (exists pre last e,
     calls_of (run w p s) = (pre ++ [last])%list /\
     Forall returned pre /\
     raised last = Some e /\
     result_of (run w p s) = inl e).
Proof.
  revert s.
  induction p as [R r | R e | R X c k IH | R X block IHb except IHe k IH];
    intros s Hfree; simpl in *.
  - left. constructor.
  - left. constructor.
  - destruct (answer w c s) as [[e | x] s1].
    + right. exists [], (Invoked c (inl e)), e. now repeat split.
    + specialize (IH x s1 (Hfree x)).
      destruct (run w (k x) s1) as [[o s2] t].
      unfold calls_of, result_of in *; simpl in *.
      destruct IH as [Hall | (pre & last & e & Hcalls & Hpre & Hlast & Hres)].
      * left. constructor; [exact I | exact Hall].
      * right. exists (Invoked c (inr x) :: pre), last, e.
        rewrite Hcalls. repeat split; trivial.
        constructor; [exact I | exact Hpre].
  - contradiction.
Qed.

Lemma raised_call_propagates (w : World) (R : Type) (p : prog R)
    (s : state w) (i : invocation) (e : Exception) :
  try_free p ->
  In i (calls_of (run w p s)) ->
  raised i = Some e ->
  result_of (run w p s) = inl e /\
  exists pre, calls_of (run w p s) = (pre ++ [i])%list /\ Forall returned pre.
Proof.
  intros Hfree Hin Hi.
  destruct (run_try_free w p s Hfree)
    as [Hall | (pre & last & e' & Hcalls & Hpre & Hlast & Hres)].
  - rewrite Forall_forall in Hall. apply Hall, returned_not_raised in Hin.
    congruence.
  - rewrite Hcalls in Hin. apply in_app_or in Hin.
    destruct Hin as [Hin | [<- | []]].
    + rewrite Forall_forall in Hpre. apply Hpre, returned_not_raised in Hin.
      congruence.
    + split; [congruence |]. exists pre. now split.
Qed.

Lemma list_credentials_loop_try_free (ids : list string)
    (credentials : list value) :
  try_free (list_credentials_loop ids credentials).
Proof.
  revert credentials.
  induction ids as [| cid rest IH]; intros credentials; simpl; [exact I |].
  intros [c |]; apply IH.
Qed.

Lemma handle_list_credentials_try_free (request : Request) :
  try_free (handle_list_credentials request).
Proof.
  unfold handle_list_credentials. simpl. intros ids.
  apply try_free_bind; [apply list_credentials_loop_try_free |].
  intros credentials. exact I.
Qed.

Lemma handle_get_credential_try_free (request : Request) :
  try_free (handle_get_credential request).
Proof.
  unfold handle_get_credential, match_info_getitem.
  destruct (lookup "credential_id" (match_info request)); simpl;
    [| exact I].
  intros [c |]; exact I.
Qed.

Lemma handle_delete_credential_try_free (request : Request) :
  try_free (handle_delete_credential request).
Proof.
  unfold handle_delete_credential, match_info_getitem.
  destruct (lookup "credential_id" (match_info request)); simpl;
    [| exact I].
  intros deleted. destruct (truthy deleted); exact I.
Qed.

Lemma handle_save_credential_try_free (dct : CredentialType)
    (dca dua : option datetime) (request : Request) :
  try_free (handle_save_credential dct dca dua request).
Proof.
  unfold handle_save_credential, request_json.
  destruct request as [mi [e | body]]; simpl; [exact I |].
  destruct body; simpl; try exact I.
  destruct (negb (truthy (dict_get d "credential_id"))
            || negb (truthy (dict_get d "keys"))
            || negb (isinstance_dict (dict_get d "keys"))); [exact I |].
  destruct (dict_get d "keys"); simpl; try exact I.
  intros []. exact I.
Qed.

(** X1.  The listing, get, save and delete handlers swallow nothing: when
    a call one of them makes on the store raises, that call is the last
    one the handler makes, every call before it returned, and the
    exception leaves the handler unchanged. *)
Theorem store_exceptions_propagate (w : World) (dct : CredentialType)
    (dca dua : option datetime) (request : Request) (s : state w)
    (handler : Request -> prog Response) (i : invocation) (e : Exception) :
  handler = handle_list_credentials \/
  handler = handle_get_credential \/
  handler = handle_save_credential dct dca dua \/
  handler = handle_delete_credential ->
  In i (calls_of (run w (handler request) s)) ->
  raised i = Some e ->
  result_of (run w (handler request) s) = inl e /\
  exists pre,
    calls_of (run w (handler request) s) = (pre ++ [i])%list /\
    Forall returned pre.
Proof.
  intros Hh. apply raised_call_propagates.
  destruct Hh as [-> | [-> | [-> | ->]]].
  - apply handle_list_credentials_try_free.
  - apply handle_get_credential_try_free.
  - apply handle_save_credential_try_free.
  - apply handle_delete_credential_try_free.
Qed.

Lemma store_exceptions_propagate_witness :
  result_of
    (run MemoryStore.down (handle_list_credentials MemoryStore.listing) tt) =
  inl MemoryStore.ConnectionError /\
  exists pre,
    calls_of
      (run MemoryStore.down (handle_list_credentials MemoryStore.listing) tt) =
    (pre ++ [Invoked list_credentials (inl MemoryStore.ConnectionError)])%list /\
    Forall returned pre.
Proof.
  apply (@store_exceptions_propagate MemoryStore.down MemoryStore.api_key None
           None MemoryStore.listing tt handle_list_credentials
           (Invoked list_credentials (inl MemoryStore.ConnectionError))
           MemoryStore.ConnectionError).
  - left. reflexivity.
  - left. reflexivity.
  - reflexivity.
Defined.

(** ** What each route calls *)

Lemma required_loop_calls (w : World) (l : list MissingCredential)
    (required : list value) (s : state w) :
  Forall check_agent_call (calls_of (run w (required_loop l required) s)).
Proof.
  revert required s.
  induction l as [| mc rest IH]; intros required s; simpl; [constructor |].
  destruct (answer w (is_available _) s) as [[e | a] s1].
  - repeat constructor.
  - specialize (IH (required ++ [required_entry mc
                      (or_ (credential_id mc) (credential_name mc)) a])%list
                  s1).
    destruct (run w (required_loop rest _) s1) as [[o s2] t].
    constructor; [exact I | exact IH].
Qed.

Lemma check_agent_block_calls (w : World) (agent_path : value) (s : state w) :
  Forall check_agent_call (calls_of (run w (check_agent_block agent_path) s)).
Proof.
  unfold check_agent_block. simpl.
  destruct (answer w import_CredentialSetupSession s) as [[e | []] s1];
    [repeat constructor |].
  destruct (answer w (from_agent_path agent_path false) s1)
    as [[e | session] s2]; [repeat constructor |].
  rewrite run_bind.
  pose proof (required_loop_calls w (missing session) [] s2) as Hloop.
  destruct (run w (required_loop (missing session) []) s2)
    as [[[e | required] s3] t]; unfold calls_of in *; simpl in *;
    rewrite ?app_nil_r; repeat (constructor; [reflexivity |]); exact Hloop.
Qed.

(** X2.  Whatever the request and the store: POST /api/credentials makes
    at most one call and it is [store.save_credential]; DELETE
    /api/credentials/{credential_id} makes at most one call and it is
    [store.delete_credential]; and every call of POST
    /api/credentials/check-agent is the import of the setup module, the
    construction of the session with [missing_only=False] or
    [store.is_available], so that check-agent never lists, reads, saves
    or deletes a credential. *)
Theorem route_footprints (w : World) (dct : CredentialType)
    (dca dua : option datetime) (request : Request) (s : state w) :
  (Forall save_call
     (calls_of (run w (handle_save_credential dct dca dua request) s)) /\
   length (calls_of (run w (handle_save_credential dct dca dua request) s))
   <= 1) /\
  (Forall delete_call (calls_of (run w (handle_delete_credential request) s)) /\
   length (calls_of (run w (handle_delete_credential request) s)) <= 1) /\
  Forall check_agent_call (calls_of (run w (handle_check_agent request) s)).
Proof.
  split; [| split].
  - unfold handle_save_credential, request_json.
    destruct request as [mi [e | body]]; simpl; [split; [constructor | lia] |].
    destruct body; simpl; try (split; [constructor | lia]).
    destruct (negb (truthy (dict_get d "credential_id"))
              || negb (truthy (dict_get d "keys"))
              || negb (isinstance_dict (dict_get d "keys")));
      [split; [constructor | simpl; lia] |].
    destruct (dict_get d "keys"); simpl; try (split; [constructor | lia]).
    destruct (answer w (save_credential _) s) as [[e | []] s1]; simpl;
      (split; [repeat constructor | lia]).
  - unfold handle_delete_credential, match_info_getitem.
    destruct (lookup "credential_id" (match_info request)) as [cid |]; simpl;
      [| split; [constructor | lia]].
    destruct (answer w (delete_credential cid) s) as [[e | deleted] s1];
      simpl; [split; [repeat constructor | lia] |].
    destruct (truthy deleted); simpl; (split; [repeat constructor | lia]).
  - destruct request as [mi [e | body]]; [constructor |].
    destruct body as [| | | | | | d]; try constructor.
    rewrite handle_check_agent_dict.
    destruct (truthy (dict_get d "agent_path")); [| constructor].
    pose proof (check_agent_block_calls w (dict_get d "agent_path") s)
      as Hblock.
    destruct (run w (check_agent_block (dict_get d "agent_path")) s)
      as [[[e | resp] s1] t]; exact Hblock.
Qed.

(** ** The shape of check-agent's entries *)

Lemma required_entries_copy (l : list MissingCredential)
    (availables : list value) :
  length availables = length l ->
  Forall2
    (fun (mc : MissingCredential) (entry : value) =>
       (exists d, entry = Dict d /\ dict_keys d = required_keys) /\
       field entry "credential_name" = Some (credential_name mc) /\
       field entry "env_var" = Some (env_var mc) /\
       field entry "description" = Some (description mc) /\
       field entry "help_url" = Some (help_url mc) /\
       field entry "tools" = Some (tools mc) /\
       field entry "node_types" = Some (node_types mc) /\
       field entry "direct_api_key_supported" =
         Some (direct_api_key_supported mc) /\
       field entry "aden_supported" = Some (aden_supported mc) /\
       field entry "credential_key" = Some (credential_key mc))
    l (required_entries l availables).
Proof.
  unfold required_entries. revert availables.
  induction l as [| mc rest IH]; intros [| a availables] Hlen;
    try discriminate Hlen; simpl; constructor.
  - split; [eexists; split; reflexivity |]. repeat split.
  - apply IH. now injection Hlen.
Qed.

(** X3.  When POST /api/credentials/check-agent answers with a
    [required] list, the list runs parallel to the [missing] list of the
    session built from [agent_path]: each entry is a JSON object with the
    same eleven keys in the same order, and its [credential_name],
    [env_var], [description], [help_url], [tools], [node_types],
    [direct_api_key_supported], [aden_supported] and [credential_key] are
    the requirement's attributes, unchanged. *)
Theorem required_entries_copy_requirement (w : World) (request : Request)
    (s : state w) (resp : Response) (required : list value) :
  result_of (run w (handle_check_agent request) s) = inr resp ->
  field (body resp) "required" = Some (List required) ->
  exists agent_path session,
    In (Invoked (from_agent_path agent_path false) (inr session))
       (calls_of (run w (handle_check_agent request) s)) /\
    Forall2
      (fun (mc : MissingCredential) (entry : value) =>
         (exists d, entry = Dict d /\ dict_keys d = required_keys) /\
         field entry "credential_name" = Some (credential_name mc) /\
         field entry "env_var" = Some (env_var mc) /\
         field entry "description" = Some (description mc) /\
         field entry "help_url" = Some (help_url mc) /\
         field entry "tools" = Some (tools mc) /\
         field entry "node_types" = Some (node_types mc) /\
         field entry "direct_api_key_supported" =
           Some (direct_api_key_supported mc) /\
         field entry "aden_supported" = Some (aden_supported mc) /\
         field entry "credential_key" = Some (credential_key mc))
      (missing session) required.
Proof.
  intros Hres Hreq.
  destruct request as [mi [e | body]]; [discriminate Hres |].
  destruct body as [| | | | | | d]; try discriminate Hres.
  revert Hres. rewrite handle_check_agent_dict.
  destruct (truthy (dict_get d "agent_path")).
  2: { intros [= <-]. discriminate Hreq. }
  pose proof (check_agent_block_runs w (dict_get d "agent_path") s) as Hblock.
  destruct (run w (check_agent_block (dict_get d "agent_path")) s)
    as [[[e | resp'] s1] t];
    unfold calls_of, result_of in *; simpl in *.
  { intros [= <-]. discriminate Hreq. }
  intros [= ->].
  destruct Hblock as [(session & availables & Hlen & Hcalls & Hres)
                     | (e' & pre & last & Hcalls & Hpre & Hlast & Hres)];
    [| discriminate Hres].
  injection Hres as ->. simpl in Hreq. injection Hreq as <-.
  exists (dict_get d "agent_path"), session. split.
  - rewrite Hcalls. right. left. reflexivity.
  - apply required_entries_copy, Hlen.
Qed.

Lemma required_entries_copy_requirement_witness :
  exists agent_path session,
    In (Invoked (from_agent_path agent_path false) (inr session))
       (calls_of
          (run MemoryStore.demo
             (handle_check_agent (MemoryStore.check "exports/demo"))
             [MemoryStore.github "t0k3n"])) /\
    Forall2
      (fun (mc : MissingCredential) (entry : value) =>
         (exists d, entry = Dict d /\ dict_keys d = required_keys) /\
         field entry "credential_name" = Some (credential_name mc) /\
         field entry "env_var" = Some (env_var mc) /\
         field entry "description" = Some (description mc) /\
         field entry "help_url" = Some (help_url mc) /\
         field entry "tools" = Some (tools mc) /\
         field entry "node_types" = Some (node_types mc) /\
         field entry "direct_api_key_supported" =
           Some (direct_api_key_supported mc) /\
         field entry "aden_supported" = Some (aden_supported mc) /\
         field entry "credential_key" = Some (credential_key mc))
      (missing session)
      [ required_entry (MemoryStore.needs (Str "github") (Str ""))
          (Str "github") (Bool true);
        required_entry (MemoryStore.needs (Str "slack") (Str "slack_bot"))
          (Str "slack_bot") (Bool false) ].
Proof.
  eapply (required_entries_copy_requirement MemoryStore.demo
            (MemoryStore.check "exports/demo") [MemoryStore.github "t0k3n"]);
    reflexivity.
Defined.

(** ** How a client tells an error from a result *)

Ltac prove_error_marked :=
  let Hst := fresh "Hst" in
  split; [eexists; reflexivity |];
  split; intros Hst; simpl in Hst;
  solve [lia | eexists; reflexivity | reflexivity].

(** X5.  Every response returned by any of the five registered handlers
    has a JSON object as body; when its status is 400 or more the body is
    exactly [{"error": message}] with a string message, and when its
    status is below 400 the body has no [error] field. *)
Theorem error_key_marks_error_status (w : World) (dct : CredentialType)
    (dca dua : option datetime) (m : http_method) (path : string)
    (handler : Request -> prog Response) (request : Request) (s : state w)
    (resp : Response) :
  In (m, path, handler) (register_routes dct dca dua) ->
  result_of (run w (handler request) s) = inr resp ->
  error_marked resp.
Proof.
  intros Hin. apply registered_handlers in Hin.
  destruct Hin as [-> | [-> | [-> | [-> | ->]]]].
  - destruct request as [mi [e | body]]; [discriminate |].
    destruct body as [| | | | | | d]; try discriminate.
    rewrite handle_check_agent_dict.
    destruct (truthy (dict_get d "agent_path")).
    2: { intros [= <-]. prove_error_marked. }
    pose proof (check_agent_block_runs w (dict_get d "agent_path") s)
      as Hblock.
    destruct (run w (check_agent_block (dict_get d "agent_path")) s)
      as [[[e | resp'] s1] t];
      unfold calls_of, result_of in *; simpl in *.
    { intros [= <-]. prove_error_marked. }
    intros [= ->].
    destruct Hblock as [(session & availables & _ & _ & Hres)
                       | (e' & pre & last & _ & _ & _ & Hres)];
      [| discriminate Hres].
    injection Hres as ->. prove_error_marked.
  - unfold handle_list_credentials. simpl.
    destruct (answer w list_credentials s) as [[e | ids] s1]; [discriminate |].
    rewrite run_bind.
    destruct (run w (list_credentials_loop ids []) s1)
      as [[[e | creds] s2] t]; [discriminate |].
    intros [= <-]. prove_error_marked.
  - unfold handle_save_credential, request_json.
    destruct request as [mi [e | body]]; simpl; [discriminate |].
    destruct body; simpl; try discriminate.
    destruct (negb (truthy (dict_get d "credential_id"))
              || negb (truthy (dict_get d "keys"))
              || negb (isinstance_dict (dict_get d "keys"))).
    + intros [= <-]. prove_error_marked.
    + destruct (dict_get d "keys"); simpl; try discriminate.
      destruct (answer w (save_credential _) s) as [[e | []] s1];
        simpl; [discriminate |].
      intros [= <-]. prove_error_marked.
  - unfold handle_get_credential, match_info_getitem.
    destruct (lookup "credential_id" (match_info request)) as [cid |];
      simpl; [| discriminate].
    destruct (answer w (get_credential cid false) s) as [[e | [c |]] s1];
      simpl; [discriminate | |]; intros [= <-]; prove_error_marked.
  - unfold handle_delete_credential, match_info_getitem.
    destruct (lookup "credential_id" (match_info request)) as [cid |];
      simpl; [| discriminate].
    destruct (answer w (delete_credential cid) s) as [[e | deleted] s1];
      simpl; [discriminate |].
    destruct (truthy deleted); simpl; intros [= <-]; prove_error_marked.
Qed.

Lemma error_key_marks_error_status_witness :
  error_marked
    (json_response
       (Dict [("error", Str "Credential 'gitlab' not found")]) 404) /\
  error_marked
    (json_response (Dict [("saved", Str "github")]) 201).
Proof.
  split.
  - apply (@error_key_marks_error_status MemoryStore.demo MemoryStore.api_key
             None None GET "/api/credentials/{credential_id}"
             handle_get_credential (MemoryStore.item "gitlab")
             [MemoryStore.github "t0k3n"]).
    + simpl. tauto.
    + reflexivity.
  - apply (@error_key_marks_error_status MemoryStore.demo MemoryStore.api_key
             None None POST "/api/credentials"
             (handle_save_credential MemoryStore.api_key None None)
             MemoryStore.save_github []).
    + simpl. tauto.
    + reflexivity.
Defined.

(** ** What the POST routes read of a request *)

(** X7.  The two POST handlers read nothing of a request but the named
    fields of its body: two dict bodies for which [body.get] gives the
    same [credential_id] and the same [keys] (an absent field counting as
    [None]) lead POST /api/credentials to the same outcome, final state
    and calls, whatever other fields the bodies carry and whatever the
    route's match info; likewise POST /api/credentials/check-agent for
    two bodies with the same [agent_path]. *)
Theorem post_routes_read_named_fields (w : World) (dct : CredentialType)
    (dca dua : option datetime) (mi1 mi2 : list (string * string))
    (d1 d2 : list (string * value)) (s : state w) :
  (dict_get d1 "credential_id" = dict_get d2 "credential_id" ->
   dict_get d1 "keys" = dict_get d2 "keys" ->
   run w (handle_save_credential dct dca dua (mkRequest mi1 (inr (Dict d1)))) s =
   run w (handle_save_credential dct dca dua (mkRequest mi2 (inr (Dict d2)))) s) /\
  (dict_get d1 "agent_path" = dict_get d2 "agent_path" ->
   run w (handle_check_agent (mkRequest mi1 (inr (Dict d1)))) s =
   run w (handle_check_agent (mkRequest mi2 (inr (Dict d2)))) s).
Proof.
  split.
  - intros Hid Hkeys. unfold handle_save_credential, request_json. simpl.
    now rewrite Hid, Hkeys.
  - intros Hpath. rewrite !handle_check_agent_dict. now rewrite Hpath.
Qed.

Lemma post_routes_read_named_fields_witness :
  run MemoryStore.demo
    (handle_save_credential MemoryStore.api_key None None
       (mkRequest [("credential_id", "other")]
          (inr (Dict [("note", Str "rotate me");
                      ("credential_id", Str "github");
                      ("keys", Dict [("token", Str "s3cr3t")]);
                      ("agent_path", Null)])))) [] =
  run MemoryStore.demo
    (handle_save_credential MemoryStore.api_key None None
       MemoryStore.save_github) [].
Proof.
  apply (post_routes_read_named_fields MemoryStore.demo MemoryStore.api_key
           None None [("credential_id", "other")] []
           [("note", Str "rotate me");
            ("credential_id", Str "github");
            ("keys", Dict [("token", Str "s3cr3t")]);
            ("agent_path", Null)]
           [("credential_id", Str "github");
            ("keys", Dict [("token", Str "s3cr3t")])] []);
    reflexivity.
Defined.

(** ** The routing table *)

Lemma append_assoc (a b c : string) : ((a ++ b) ++ c)%string = (a ++ b ++ c)%string.
Proof.
  induction a as [| x a IH]; simpl; [reflexivity | now rewrite IH].
Qed.

Lemma append_empty (a : string) : (a ++ "")%string = a.
Proof.
  induction a as [| x a IH]; simpl; [reflexivity | now rewrite IH].
Qed.

Lemma split_slash_nonempty (s segment : string) : split_slash s segment <> [].
Proof.
  revert segment. induction s as [| c rest IH]; intros segment; simpl.
  - discriminate.
  - destruct (Ascii.eqb c "/"); [discriminate | apply IH].
Qed.

Lemma concat_cons (sep x : string) (l : list string) :
  l <> [] -> String.concat sep (x :: l) = (x ++ sep ++ String.concat sep l)%string.
Proof.
  destruct l; [intros H; now contradiction H | reflexivity].
Qed.

(** Joining the segments with slashes gives the string back. *)
Lemma join_split_slash (s segment : string) :
  String.concat "/" (split_slash s segment) = (segment ++ s)%string.
Proof.
  revert segment. induction s as [| c rest IH]; intros segment;
    cbn [split_slash].
  - simpl. now rewrite append_empty.
  - destruct (Ascii.eqb_spec c "/") as [-> | _].
    + rewrite concat_cons by apply split_slash_nonempty.
      now rewrite IH.
    + rewrite IH. apply append_assoc.
Qed.

Lemma split_slash_segment (s segment : string) :
  no_slash s = true -> split_slash s segment = [(segment ++ s)%string].
Proof.
  revert segment. induction s as [| c rest IH]; intros segment Hs; simpl in *.
  - now rewrite append_empty.
  - apply andb_prop in Hs. destruct Hs as [Hc Hrest].
    destruct (Ascii.eqb c "/"); [discriminate Hc |].
    rewrite (IH _ Hrest). now rewrite append_assoc.
Qed.

Lemma no_slash_split (segments : list string) (s segment : string) :
  split_slash s segment = segments ->
  no_slash segment = true ->
  Forall (fun x => no_slash x = true) segments.
Proof.
  revert segment segments.
  induction s as [| c rest IH]; intros segment segments Hs Hseg; simpl in Hs.
  - subst segments. now repeat constructor.
  - destruct (Ascii.eqb c "/") eqn:Hc.
    + subst segments. constructor; [exact Hseg |]. now apply (IH ""%string).
    + apply (IH (segment ++ String c "")%string); [exact Hs |].
      clear - Hseg Hc.
      induction segment as [| x a IHa]; simpl in *.
      * now rewrite Hc.
      * apply andb_prop in Hseg. destruct Hseg as [-> Ha]. simpl. now apply IHa.
Qed.

Lemma match_segments_length (unquote : string -> string)
    (pattern path : list string) (mi : list (string * string)) :
  match_segments unquote pattern path = Some mi ->
  length pattern = length path.
Proof.
  revert path mi.
  induction pattern as [| p pattern IH]; intros [| segment path] mi;
    simpl; try discriminate; [reflexivity |].
  destruct (variable_name p).
  - destruct (negb (segment =? "") && no_brace segment); [| discriminate].
    destruct (match_segments unquote pattern path) as [mi' |] eqn:Hm;
      [| discriminate].
    intros _. f_equal. eapply IH, Hm.
  - destruct (p =? segment); [| discriminate].
    intros Hm. f_equal. eapply IH, Hm.
Qed.

(** The paths the pattern [/api/credentials/{credential_id}] matches, and
    what it binds. *)
Lemma item_route_matches (unquote : string -> string) (path : string)
    (mi : list (string * string)) :
  match_route unquote "/api/credentials/{credential_id}" path = Some mi <->
  exists segment,
    path = ("/api/credentials/" ++ segment)%string /\
    variable_segment segment /\
    mi = [("credential_id", unquote segment)].
Proof.
  unfold match_route, variable_segment. split.
  - intros Hm.
    pose proof (join_split_slash path "") as Hjoin.
    pose proof (@no_slash_split (split_slash path "") path "" eq_refl eq_refl)
      as Hslash.
    destruct (split_slash path "") as [| s0 [| s1 [| s2 [| s3 [| s4 rest]]]]];
      cbn -[String.eqb no_brace] in Hm.
    1-4, 6: repeat (match type of Hm with
                    | context [String.eqb ?a ?b] => destruct (String.eqb a b)
                    | context [no_brace ?a] => destruct (no_brace a)
                    end; cbn -[String.eqb no_brace] in Hm); discriminate Hm.
    destruct (String.eqb_spec "" s0) as [<- | _]; [| discriminate Hm].
    destruct (String.eqb_spec "api" s1) as [<- | _]; [| discriminate Hm].
    destruct (String.eqb_spec "credentials" s2) as [<- | _];
      [| discriminate Hm].
    destruct (negb (s3 =? "") && no_brace s3) eqn:Hseg; [| discriminate Hm].
    apply andb_prop in Hseg. destruct Hseg as [Hne Hbrace].
    injection Hm as <-. exists s3. simpl in Hjoin.
    split; [now symmetry |]. split; [| reflexivity].
    split; [| split; [| exact Hbrace]].
    + intros ->. discriminate Hne.
    + inversion Hslash as [| ? ? _ H1]; subst.
      inversion H1 as [| ? ? _ H2]; subst.
      inversion H2 as [| ? ? _ H3]; subst.
      now inversion H3.
  - intros (segment & -> & (Hne & Hslash & Hbrace) & ->).
    assert (Hsplit : split_slash ("/api/credentials/" ++ segment) "" =
                     [""; "api"; "credentials"; segment]).
    { cbn. now rewrite (@split_slash_segment segment "" Hslash). }
    rewrite Hsplit. cbn -[String.eqb no_brace].
    rewrite !String.eqb_refl, Hbrace.
    destruct (String.eqb_spec segment "") as [-> | _];
      [now contradiction Hne | reflexivity].
Qed.

Lemma match_route_length (unquote : string -> string) (pattern path : string)
    (mi : list (string * string)) :
  match_route unquote pattern path = Some mi ->
  length (split_slash pattern "") = length (split_slash path "").
Proof.
  apply match_segments_length.
Qed.

(** X8.  The routes [register_routes] adds, the HEAD route that
    [add_get] registers beside each GET route included, never compete:
    for every method that has a route (GET, HEAD, POST, DELETE) and every
    path, at most one of them matches, so which handler serves a request
    does not depend on the order in which the routes were added. *)
Theorem routes_unambiguous (unquote : string -> string)
    (dct : CredentialType) (dca dua : option datetime) (m : http_method)
    (path pattern1 pattern2 : string) (h1 h2 : Request -> prog Response)
    (mi1 mi2 : list (string * string)) :
  In (m, pattern1, h1) (register_routes dct dca dua) ->
  In (m, pattern2, h2) (register_routes dct dca dua) ->
  match_route unquote pattern1 path = Some mi1 ->
  match_route unquote pattern2 path = Some mi2 ->
  pattern1 = pattern2 /\ h1 = h2 /\ mi1 = mi2.
Proof.
  intros Hin1 Hin2 Hm1 Hm2.
  destruct Hin1 as [[= <- <- <-] | [[= <- <- <-] | [[= <- <- <-]
                   | [[= <- <- <-] | [[= <- <- <-] | [[= <- <- <-]
                   | [[= <- <- <-] | []]]]]]]];
    destruct Hin2 as [[= <- <-] | [[= <- <-] | [[= <- <-]
                     | [[= <- <-] | [[= <- <-] | [[= <- <-]
                     | [[= <- <-] | []]]]]]]];
    try (split; [reflexivity | split; [reflexivity |]];
         rewrite Hm1 in Hm2; now injection Hm2);
    exfalso;
    apply match_route_length in Hm1;
    apply match_route_length in Hm2;
    pose proof (eq_trans Hm1 (eq_sym Hm2)) as Hab;
    vm_compute in Hab; discriminate Hab.
Qed.

Lemma routes_unambiguous_witness :
  "/api/credentials/{credential_id}" = "/api/credentials/{credential_id}" /\
  handle_get_credential = handle_get_credential /\
  [("credential_id", "check-agent")] = [("credential_id", "check-agent")].
Proof.
  apply (@routes_unambiguous (fun segment => segment) MemoryStore.api_key None
           None HEAD "/api/credentials/check-agent"
           "/api/credentials/{credential_id}"
           "/api/credentials/{credential_id}"
           handle_get_credential handle_get_credential
           [("credential_id", "check-agent")]
           [("credential_id", "check-agent")]).
  - simpl. tauto.
  - simpl. tauto.
  - vm_compute. reflexivity.
  - vm_compute. reflexivity.
Defined.

(** X9.  A request that reaches a handler through one of the routes on
    [/api/credentials/{credential_id}] (GET, the HEAD route [add_get]
    registers with it, DELETE) has a path of the form
    [/api/credentials/segment] with a non-empty segment free of slashes
    and braces, carries that segment, decoded, as [credential_id], and
    makes the handler call the store exactly once, for that id: a read
    without refresh on GET and HEAD, a delete on DELETE.  The handler
    never fails on a missing [credential_id]. *)
Theorem routed_item_request_names_segment (unquote : string -> string)
    (dct : CredentialType) (dca dua : option datetime) (m : http_method)
    (h : Request -> prog Response) (path : string)
    (mi : list (string * string)) (w : World)
    (body_json : Exception + value) (s : state w) :
  In (m, "/api/credentials/{credential_id}", h) (register_routes dct dca dua) ->
  match_route unquote "/api/credentials/{credential_id}" path = Some mi ->
  exists segment,
    path = ("/api/credentials/" ++ segment)%string /\
    variable_segment segment /\
    lookup "credential_id" mi = Some (unquote segment) /\
    (((m = GET \/ m = HEAD) /\
      calls_of (run w (h (mkRequest mi body_json)) s) =
      [Invoked (get_credential (unquote segment) false)
         (fst (answer w (get_credential (unquote segment) false) s))]) \/
     (m = DELETE /\
      calls_of (run w (h (mkRequest mi body_json)) s) =
      [Invoked (delete_credential (unquote segment))
         (fst (answer w (delete_credential (unquote segment)) s))])).
Proof.
  intros Hin Hm. apply item_route_matches in Hm.
  destruct Hm as (segment & Hpath & Hseg & ->).
  exists segment. repeat split; try apply Hseg; trivial.
  destruct Hin as [[= <-] | [[= <-] | [[= <-] | [[= <-]
                  | [[= <- <-] | [[= <- <-] | [[= <- <-] | []]]]]]]].
  - left. split; [now right |].
    unfold handle_get_credential, match_info_getitem. simpl.
    destruct (answer w (get_credential (unquote segment) false) s)
      as [[e | [c |]] s1]; reflexivity.
  - left. split; [now left |].
    unfold handle_get_credential, match_info_getitem. simpl.
    destruct (answer w (get_credential (unquote segment) false) s)
      as [[e | [c |]] s1]; reflexivity.
  - right. split; [reflexivity |].
    unfold handle_delete_credential, match_info_getitem. simpl.
    destruct (answer w (delete_credential (unquote segment)) s)
      as [[e | deleted] s1]; [reflexivity |].
    destruct (truthy deleted); reflexivity.
Qed.

Lemma routed_item_request_names_segment_witness :
  exists segment,
    "/api/credentials/check-agent" = ("/api/credentials/" ++ segment)%string /\
    variable_segment segment /\
    lookup "credential_id" [("credential_id", "check-agent")] = Some segment /\
    (((GET = GET \/ GET = HEAD) /\
      calls_of
        (run MemoryStore.demo
           (handle_get_credential
              (mkRequest [("credential_id", "check-agent")]
                 (inl MemoryStore.JSONDecodeError))) []) =
      [Invoked (get_credential segment false)
         (fst (answer MemoryStore.demo (get_credential segment false) []))]) \/
     (GET = DELETE /\
      calls_of
        (run MemoryStore.demo
           (handle_get_credential
              (mkRequest [("credential_id", "check-agent")]
                 (inl MemoryStore.JSONDecodeError))) []) =
      [Invoked (delete_credential segment)
         (fst (answer MemoryStore.demo (delete_credential segment) []))])).
Proof.
  apply (@routed_item_request_names_segment (fun segment => segment)
           MemoryStore.api_key None None GET handle_get_credential
           "/api/credentials/check-agent" [("credential_id", "check-agent")]
           MemoryStore.demo (inl MemoryStore.JSONDecodeError) []).
  - simpl. tauto.
  - vm_compute. reflexivity.
Defined.

(** ** The listing against the single-credential route *)

Lemma item_get_route_handler (dct : CredentialType) (dca dua : option datetime)
    (h : Request -> prog Response) :
  In (GET, "/api/credentials/{credential_id}", h) (register_routes dct dca dua) ->
  h = handle_get_credential.
Proof.
  intros Hin.
  destruct Hin as [[= <-] | [[= <-] | [[= <-] | [[= <-]
                  | [[= <-] | [[= <-] | [[= <-] | []]]]]]]].
  reflexivity.
Qed.

Lemma routed_item_metadata_read (unquote : string -> string) (w : World)
    (s : state w) (body_json : Exception + value) (path cid : string)
    (mi : list (string * string)) (r : option CredentialObject) :
  match_route unquote "/api/credentials/{credential_id}" path = Some mi ->
  lookup "credential_id" mi = Some cid ->
  answer w (get_credential cid false) s = (inr r, s) ->
  routed_item_metadata unquote handle_get_credential w s body_json path =
  match r with
  | Some c => [_credential_to_dict c]
  | None => []
  end.
Proof.
  intros Hm Hcid Hans.
  unfold routed_item_metadata. rewrite Hm.
  unfold handle_get_credential, match_info_getitem.
  cbn [match_info]. rewrite Hcid. simpl.
  rewrite Hans. now destruct r.
Qed.

Lemma list_credentials_loop_items (unquote : string -> string) (w : World)
    (s : state w) (body_json : Exception + value) (path_of : string -> string)
    (ids : list string) (credentials : list value) :
  (forall cid, In cid ids ->
     exists r, answer w (get_credential cid false) s = (inr r, s)) ->
  (forall cid, In cid ids ->
     exists mi,
       match_route unquote "/api/credentials/{credential_id}" (path_of cid) =
         Some mi /\
       lookup "credential_id" mi = Some cid) ->
  result_of (run w (list_credentials_loop ids credentials) s) =
    inr (credentials
         ++ flat_map
              (fun cid =>
                 routed_item_metadata unquote handle_get_credential w s
                   body_json (path_of cid)) ids)%list /\
  final_state (run w (list_credentials_loop ids credentials) s) = s.
Proof.
  revert credentials.
  induction ids as [| cid rest IH]; intros credentials Hreads Hroutes;
    cbn [list_credentials_loop flat_map].
  - rewrite app_nil_r. now split.
  - destruct (Hreads cid (or_introl eq_refl)) as [r Hans].
    destruct (Hroutes cid (or_introl eq_refl)) as (mi & Hm & Hcid).
    rewrite (@routed_item_metadata_read unquote w s body_json (path_of cid)
               cid mi r Hm Hcid Hans).
    simpl. rewrite Hans.
    assert (Hrest : forall cid', In cid' rest ->
              exists r', answer w (get_credential cid' false) s = (inr r', s))
      by (intros cid' Hin; apply Hreads; now right).
    assert (Hrest' : forall cid', In cid' rest ->
              exists mi',
                match_route unquote "/api/credentials/{credential_id}"
                  (path_of cid') = Some mi' /\
                lookup "credential_id" mi' = Some cid')
      by (intros cid' Hin; apply Hroutes; now right).
    destruct r as [c |].
    + specialize (IH (credentials ++ [_credential_to_dict c])%list Hrest Hrest').
      destruct (run w (list_credentials_loop rest _) s) as [[o s2] t].
      unfold result_of, final_state in *; cbn [fst snd] in *.
      destruct IH as [-> ->]. now rewrite <- app_assoc.
    + specialize (IH credentials Hrest Hrest').
      destruct (run w (list_credentials_loop rest _) s) as [[o s2] t].
      exact IH.
Qed.

(** X4.  Take a store whose listing returns [ids] and whose reads
    without refresh return, all leaving the store as it is, and for each
    listed id a path that the route [/api/credentials/{credential_id}]
    matches with that id as [credential_id].  Then the [credentials] list
    of GET /api/credentials is the concatenation, in the order of [ids],
    of what the GET of each of those paths answers through the registered
    route: the body of its 200 response, or nothing where it answers 404.
    The listing therefore never has more entries than ids, and it leaves
    the store as it is. *)
Theorem listing_collects_item_responses (unquote : string -> string)
    (dct : CredentialType) (dca dua : option datetime)
    (h : Request -> prog Response) (w : World) (request : Request)
    (body_json : Exception + value) (s : state w) (ids : list string)
    (path_of : string -> string) :
  In (GET, "/api/credentials/{credential_id}", h) (register_routes dct dca dua) ->
  answer w list_credentials s = (inr ids, s) ->
  (forall cid, In cid ids ->
     exists r, answer w (get_credential cid false) s = (inr r, s)) ->
  (forall cid, In cid ids ->
     exists mi,
       match_route unquote "/api/credentials/{credential_id}" (path_of cid) =
         Some mi /\
       lookup "credential_id" mi = Some cid) ->
  result_of (run w (handle_list_credentials request) s) =
    inr (json_response
           (Dict [("credentials",
                   List (flat_map
                           (fun cid =>
                              routed_item_metadata unquote h w s body_json
                                (path_of cid)) ids))])
           200) /\
  final_state (run w (handle_list_credentials request) s) = s /\
  length
    (flat_map
       (fun cid => routed_item_metadata unquote h w s body_json (path_of cid))
       ids) <= length ids.
Proof.
  intros Hin Hlist Hreads Hroutes.
  apply item_get_route_handler in Hin. subst h.
  destruct (@list_credentials_loop_items unquote w s body_json path_of ids []
              Hreads Hroutes) as [Hres Hstate].
  split; [| split].
  - unfold handle_list_credentials. simpl. rewrite Hlist, run_bind.
    destruct (run w (list_credentials_loop ids []) s) as [[o s2] t].
    unfold result_of in *; simpl in *. now subst o.
  - unfold handle_list_credentials. simpl. rewrite Hlist, run_bind.
    destruct (run w (list_credentials_loop ids []) s) as [[o s2] t].
    unfold result_of, final_state in *; simpl in *. now subst o.
  - clear Hlist Hres Hstate.
    induction ids as [| cid rest IH]; cbn [flat_map length]; [lia |].
    destruct (Hreads cid (or_introl eq_refl)) as [r Hans].
    destruct (Hroutes cid (or_introl eq_refl)) as (mi & Hm & Hcid).
    rewrite (@routed_item_metadata_read unquote w s body_json (path_of cid)
               cid mi r Hm Hcid Hans), length_app.
    assert (Hrest : forall cid', In cid' rest ->
              exists r', answer w (get_credential cid' false) s = (inr r', s))
      by (intros cid' Hin; apply Hreads; now right).
    assert (Hrest' : forall cid', In cid' rest ->
              exists mi',
                match_route unquote "/api/credentials/{credential_id}"
                  (path_of cid') = Some mi' /\
                lookup "credential_id" mi' = Some cid')
      by (intros cid' Hin; apply Hroutes; now right).
    specialize (IH Hrest Hrest'). destruct r; simpl; lia.
Qed.

Lemma listing_collects_item_responses_witness :
  result_of
    (run MemoryStore.demo (handle_list_credentials MemoryStore.listing)
       [MemoryStore.github "t0k3n"]) =
  inr (json_response
         (Dict [("credentials",
                 List (flat_map
                         (fun cid =>
                            routed_item_metadata (fun segment => segment)
                              handle_get_credential MemoryStore.demo
                              [MemoryStore.github "t0k3n"]
                              (inl MemoryStore.JSONDecodeError)
                              ("/api/credentials/" ++ cid))
                         ["github"]))])
         200) /\
  final_state
    (run MemoryStore.demo (handle_list_credentials MemoryStore.listing)
       [MemoryStore.github "t0k3n"]) = [MemoryStore.github "t0k3n"] /\
  length
    (flat_map
       (fun cid =>
          routed_item_metadata (fun segment => segment) handle_get_credential
            MemoryStore.demo [MemoryStore.github "t0k3n"]
            (inl MemoryStore.JSONDecodeError) ("/api/credentials/" ++ cid))
       ["github"]) <= 1.
Proof.
  apply (@listing_collects_item_responses (fun segment => segment)
           MemoryStore.api_key None None handle_get_credential
           MemoryStore.demo MemoryStore.listing
           (inl MemoryStore.JSONDecodeError) [MemoryStore.github "t0k3n"]
           ["github"] (fun cid => ("/api/credentials/" ++ cid)%string)).
  - simpl. tauto.
  - reflexivity.
  - intros cid _. eexists. reflexivity.
  - intros cid [<- | []]. exists [("credential_id", "github")].
    split; [vm_compute; reflexivity | reflexivity].
Defined.

(** ** Saving, then reading back *)

Lemma memory_store_get_after_save (cid : string) (cred : CredentialObject)
    (s : list CredentialObject) :
  id cred = Str cid ->
  find (MemoryStore.has_id (Str cid))
    (filter (fun c => negb (MemoryStore.has_id (id cred) c)) s ++ [cred]) =
  Some cred.
Proof.
  intros Hid. rewrite Hid.
  induction s as [| c rest IH]; cbn [filter app find].
  - unfold MemoryStore.has_id. rewrite Hid, String.eqb_refl. reflexivity.
  - destruct (MemoryStore.has_id (Str cid) c) eqn:Hc; cbn [negb app find];
      [exact IH |].
    rewrite Hc. exact IH.
Qed.

(** X6.  Over a store that accepts a credential with the string id [cid]
    and then returns it when [cid] is read, a POST /api/credentials whose
    body gives [cid] and a non-empty [keys] dict answers 201
    [{"saved": cid}]; and a GET that follows, on a path that the
    registered route [/api/credentials/{credential_id}] matches with
    [cid] as [credential_id], answers 200 with [credential_id] equal to
    [cid] and [key_names] equal to the names of the posted keys, in the
    order they were posted. *)
Theorem saved_credential_is_served (unquote : string -> string) (w : World)
    (dct : CredentialType) (dca dua : option datetime)
    (mi : list (string * string)) (d : list (string * value)) (cid : string)
    (posted : list (string * value)) (h : Request -> prog Response)
    (path : string) (routed : list (string * string))
    (body_json : Exception + value) (s : state w) :
  lookup "credential_id" d = Some (Str cid) ->
  cid <> "" ->
  lookup "keys" d = Some (Dict posted) ->
  posted <> [] ->
  (forall cred, id cred = Str cid ->
     fst (answer w (save_credential cred) s) = inr tt /\
     fst (answer w (get_credential cid false)
            (snd (answer w (save_credential cred) s))) = inr (Some cred)) ->
  In (GET, "/api/credentials/{credential_id}", h) (register_routes dct dca dua) ->
  match_route unquote "/api/credentials/{credential_id}" path = Some routed ->
  lookup "credential_id" routed = Some cid ->
  let saved :=
    run w (handle_save_credential dct dca dua (mkRequest mi (inr (Dict d)))) s
  in
  let served := run w (h (mkRequest routed body_json)) (final_state saved) in
  result_of saved = inr (json_response (Dict [("saved", Str cid)]) 201) /\
  exists resp,
    result_of served = inr resp /\
    status resp = 200%Z /\
    field (body resp) "credential_id" = Some (Str cid) /\
    field (body resp) "key_names" = Some (List (map Str (dict_keys posted))).
Proof.
  intros Hcid Hne Hkeys Hposted Hlaw Hin Hroute Hrouted saved served.
  subst saved served.
  apply item_get_route_handler in Hin. subst h.
  assert (Hc : truthy (Str cid) = true).
  { simpl. destruct (String.eqb_spec cid "") as [-> | _];
      [now contradiction Hne | reflexivity]. }
  assert (Hk : truthy (Dict posted) = true).
  { destruct posted; [now contradiction Hposted | reflexivity]. }
  set (cred := CredentialObject_init dct dca dua (Str cid)
                 (credential_keys posted)).
  destruct (Hlaw cred eq_refl) as [Hsave Hget].
  unfold handle_save_credential, request_json.
  with_strategy opaque [truthy credential_keys] simpl.
  unfold dict_get. rewrite Hcid, Hkeys, Hc, Hk.
  with_strategy opaque [truthy credential_keys] simpl.
  fold cred.
  destruct (answer w (save_credential cred) s) as [[e | []] s1];
    simpl in Hsave, Hget; [discriminate Hsave |].
  unfold result_of, final_state. simpl.
  split; [reflexivity |].
  unfold handle_get_credential, match_info_getitem.
  cbn [match_info]. rewrite Hrouted. simpl.
  destruct (answer w (get_credential cid false) s1) as [[e | r] s2];
    simpl in Hget; [discriminate Hget |].
  injection Hget as ->. simpl.
  eexists. split; [reflexivity |]. split; [reflexivity |].
  split; [reflexivity |].
  simpl. now rewrite credential_keys_names.
Qed.

Lemma saved_credential_is_served_witness :
  result_of
    (run MemoryStore.demo
       (handle_save_credential MemoryStore.api_key None None
          MemoryStore.save_github) [MemoryStore.github "old"]) =
  inr (json_response (Dict [("saved", Str "github")]) 201) /\
  exists resp,
    result_of
      (run MemoryStore.demo (handle_get_credential (MemoryStore.item "github"))
         (final_state
            (run MemoryStore.demo
               (handle_save_credential MemoryStore.api_key None None
                  MemoryStore.save_github) [MemoryStore.github "old"]))) =
    inr resp /\
    status resp = 200%Z /\
    field (body resp) "credential_id" = Some (Str "github") /\
    field (body resp) "key_names" =
      Some (List (map Str (dict_keys [("token", Str "s3cr3t")]))).
Proof.
  apply (@saved_credential_is_served (fun segment => segment)
           MemoryStore.demo MemoryStore.api_key None None []
           [("credential_id", Str "github");
            ("keys", Dict [("token", Str "s3cr3t")])]
           "github" [("token", Str "s3cr3t")] handle_get_credential
           "/api/credentials/github" [("credential_id", "github")]
           (inl MemoryStore.JSONDecodeError) [MemoryStore.github "old"]).
  - reflexivity.
  - discriminate.
  - reflexivity.
  - discriminate.
  - intros cred Hid. split; [reflexivity |].
    exact (f_equal (@inr Exception (option CredentialObject))
             (@memory_store_get_after_save "github" cred
                [MemoryStore.github "old"] Hid)).
  - simpl. tauto.
  - vm_compute. reflexivity.
  - reflexivity.
Defined.
